(** * FerretDB: collection catalog (pgdb) and the delete handler (tigris)

    A shallow embedding of
    - [internal/handlers/pg/pgdb/collections.go]: [Collections],
      [CreateCollection] and the name-validation regular expression;
    - the tigris [MsgDelete] handler and its [delete] helper;
    - the streaming cursor exercised by [TestQueryDocuments].

    Go strings are byte sequences: they are [string] (a list of [ascii]).
    Go's [int32] and [int64] are [Z] with the wrap-around written out. *)

From Stdlib Require Import List String Ascii Bool Arith ZArith PrimFloat Lia.
From Stdlib Require Import Sorting.Sorted Sorting.Permutation.
Import ListNotations.

Set Warnings "-register-all".
Local Open Scope string_scope.
Local Open Scope list_scope.
Local Open Scope nat_scope.

(* ===================================================================== *)
(** * Value model ([internal/types]) *)
(* ===================================================================== *)

Module Types.

(** The scalar and composite variants of a document value.  A document is
    an ordered list of (key, value) pairs; an array is a list of values.
    A [float64] is a primitive binary64 float. *)
Inductive Value : Type :=
| VDouble (f : float)
| VString (s : string)
| VDocument (fields : list (string * Value))
| VArray (items : list Value)
| VBinary (b : list ascii)
| VObjectID (b : list ascii)
| VBool (b : bool)
| VDateTime (ms : Z)
| VNull
| VInt32 (n : Z)
| VInt64 (n : Z).

Definition Document : Type := list (string * Value).
Definition Array : Type := list Value.

(** [doc.Get(key)]: the value under the first occurrence of [key]. *)
Fixpoint Get (d : Document) (key : string) : option Value :=
  match d with
  | [] => None
  | (k, v) :: rest => if String.eqb k key then Some v else Get rest key
  end.

(** [doc.Has(key)]. *)
Definition Has (d : Document) (key : string) : bool :=
  match Get d key with Some _ => true | None => false end.

(** Modelled from the spec: the body of [Document.Set] is not part of the
    sources at hand; "set by key (replaces or appends, preserving position
    on replace)". *)
Fixpoint Set_ (d : Document) (key : string) (v : Value) : Document :=
  match d with
  | [] => [(key, v)]
  | (k, v0) :: rest =>
      if String.eqb k key then (k, v) :: rest else (k, v0) :: Set_ rest key v
  end.

(** [doc.Keys()]: the keys in insertion order. *)
Definition Keys (d : Document) : list string := map fst d.

(** [doc.Command()]: the name of the command, that is the first key. *)
Definition Command (d : Document) : string :=
  match d with [] => "" | (k, _) :: _ => k end.

(** Go type assertions [v.(T)]. *)
Definition asDocument (v : Value) : option Document :=
  match v with VDocument d => Some d | _ => None end.
Definition asArray (v : Value) : option Array :=
  match v with VArray a => Some a | _ => None end.
Definition asBool (v : Value) : option bool :=
  match v with VBool b => Some b | _ => None end.
Definition asString (v : Value) : option string :=
  match v with VString s => Some s | _ => None end.

Lemma asDocument_Some (v : Value) (d : Document) :
  asDocument v = Some d -> v = VDocument d.
Proof. destruct v; simpl; congruence. Qed.

Lemma Get_Set_same (d : Document) (key : string) (v : Value) :
  Get (Set_ d key v) key = Some v.
Proof.
  induction d as [|[k v0] rest IH]; simpl.
  - now rewrite String.eqb_refl.
  - destruct (String.eqb k key) eqn:E; simpl; rewrite E; auto.
Qed.

Lemma Get_Set_other (d : Document) (key key' : string) (v : Value) :
  key <> key' -> Get (Set_ d key v) key' = Get d key'.
Proof.
  intros Hne. induction d as [|[k v0] rest IH]; simpl.
  - destruct (String.eqb key key') eqn:E; auto.
    apply String.eqb_eq in E. contradiction.
  - destruct (String.eqb k key) eqn:E; simpl.
    + apply String.eqb_eq in E. subst k.
      destruct (String.eqb key key') eqn:E'; auto.
      apply String.eqb_eq in E'. contradiction.
    + now rewrite IH.
Qed.

End Types.

(* ===================================================================== *)
(** * Regular expressions ([regexp]) *)
(* ===================================================================== *)

Module Regexp.

(** The fragment of Go's regular-expression syntax that the name patterns
    use: the anchors [^] and [$] (without the [m] flag they match only at
    the beginning and at the end of the text), character classes given by
    ranges, concatenation and bounded repetition [{min,max}].

    Matching is on bytes.  The classes of the patterns are ASCII, so a
    byte of a multi-byte rune is in no class, as the rune is in none. *)
Inductive Re : Type :=
| BeginText
| EndText
| CharClass (ranges : list (ascii * ascii))
| Concat (r1 r2 : Re)
| Repeat (r : Re) (min max : nat).

(** A position in the text: the offset reached and what is left. *)
Definition Pos : Type := (nat * list ascii)%type.

Definition inRange (c : ascii) (r : ascii * ascii) : bool :=
  (nat_of_ascii (fst r) <=? nat_of_ascii c) &&
  (nat_of_ascii c <=? nat_of_ascii (snd r)).

Definition inClass (ranges : list (ascii * ascii)) (c : ascii) : bool :=
  existsb (inRange c) ranges.

(** [repeatWith m min max p]: every position reachable from [p] by
    between [min] and [max] consecutive matches of [m]. *)
Fixpoint repeatWith (m : Pos -> list Pos) (min max : nat) (p : Pos)
  : list Pos :=
  (if min =? 0 then [p] else []) ++
  match max with
  | O => []
  | S k => flat_map (repeatWith m (pred min) k) (m p)
  end.

(** [matchAt r p]: the positions at which a match of [r] that starts at
    [p] can end. *)
Fixpoint matchAt (r : Re) (p : Pos) : list Pos :=
  match r with
  | BeginText => if fst p =? 0 then [p] else []
  | EndText => match snd p with [] => [p] | _ :: _ => [] end
  | CharClass ranges =>
      match snd p with
      | c :: rest => if inClass ranges c then [(S (fst p), rest)] else []
      | [] => []
      end
  | Concat r1 r2 => flat_map (matchAt r2) (matchAt r1 p)
  | Repeat r' mn mx => repeatWith (matchAt r') mn mx p
  end.

Definition nonEmpty {A : Type} (l : list A) : bool :=
  match l with [] => false | _ :: _ => true end.

(** [re.MatchString(s)]: whether [s] contains a match of [re], starting
    at any offset. *)
Definition MatchString (re : Re) (s : string) : bool :=
  let text := list_ascii_of_string s in
  existsb (fun i => nonEmpty (matchAt re (i, skipn i text)))
          (seq 0 (S (List.length text))).

End Regexp.

Module RegexpFacts.
Import Regexp.

Lemma nonEmpty_In {A : Type} (l : list A) :
  nonEmpty l = true <-> exists x, In x l.
Proof.
  destruct l as [|a l]; simpl; split.
  - discriminate.
  - intros [x []].
  - intros _. exists a. now left.
  - reflexivity.
Qed.

(** Repeating a character class at least zero and at most [n] times
    consumes a prefix of at most [n] bytes, all of them in the class. *)
Lemma repeat_class_In (rs : list (ascii * ascii)) (n : nat) :
  forall (o : nat) (s : list ascii) (q : Pos),
    In q (repeatWith (matchAt (CharClass rs)) 0 n (o, s)) <->
    exists pre, s = pre ++ snd q /\ fst q = o + List.length pre /\
                List.length pre <= n /\ forallb (inClass rs) pre = true.
Proof.
  induction n as [|k IH]; intros o s [o' s']; simpl.
  - split.
    + intros [H|[]]. inversion H; subst. exists []. simpl.
      repeat split; auto; try lia.
    + intros (pre & Hs & Ho & Hlen & _). left.
      destruct pre; simpl in *; [|lia]. subst. f_equal. lia.
  - split.
    + intros [H|H].
      * inversion H; subst. exists []. simpl. repeat split; auto; try lia.
      * apply in_flat_map in H. destruct H as (p & Hp & Hq).
        destruct s as [|c rest]; simpl in Hp; [contradiction|].
        destruct (inClass rs c) eqn:Hc; simpl in Hp; [|contradiction].
        destruct Hp as [Hp|[]]. subst p.
        apply IH in Hq. destruct Hq as (pre & Hs & Ho & Hlen & Hall).
        exists (c :: pre). simpl in *. rewrite Hc, Hall.
        repeat split; auto; try lia. now rewrite Hs.
    + intros (pre & Hs & Ho & Hlen & Hall).
      destruct pre as [|c pre]; simpl in *.
      * left. subst. f_equal. lia.
      * right. apply andb_true_iff in Hall. destruct Hall as [Hc Hall].
        subst s. simpl. rewrite Hc. simpl. rewrite app_nil_r.
        apply IH. exists pre. simpl. repeat split; auto; lia.
Qed.

Lemma existsb_seq_shift (f : nat -> bool) (n : nat) :
  (forall i, 1 <= i -> f i = false) ->
  existsb f (seq 0 (S n)) = f 0.
Proof.
  intros Hf. simpl.
  assert (H : existsb f (seq 1 n) = false).
  { apply not_true_is_false. intros H. apply existsb_exists in H.
    destruct H as (i & Hi & Hfi). apply in_seq in Hi.
    rewrite Hf in Hfi by lia. discriminate. }
  rewrite H. apply orb_false_r.
Qed.

End RegexpFacts.

(* ===================================================================== *)
(** * The collection catalog ([internal/handlers/pg/pgdb]) *)
(* ===================================================================== *)

Module Pgdb.
Import Types Regexp.

(** ** Errors *)

(** What the driver hands back: a [*pgconn.PgError] with its SQLSTATE
    code, or any other failure (closed connection, cancelled context). *)
Inductive PgErr : Type :=
| PgError (code : string)
| OtherErr (msg : string).

(** [pgerrcode] constants. *)
Definition UniqueViolation : string := "23505".
Definition DuplicateObject : string := "42710".
Definition DuplicateTable : string := "42P07".
Definition InvalidSchemaName : string := "3F000".

(** The package's sentinel errors and the two ways it wraps others. *)
Inductive Error : Type :=
| ErrInvalidTableName
| ErrSchemaNotExist
| ErrAlreadyExist
| ErrTableNotExist
| ErrDriver (e : PgErr)
| LazyError (e : Error)
| LazyErrorf (msg : string).

(** [errors.Is(err, target)] for a sentinel [target]: unwraps
    [lazyerrors.Error]. *)
Fixpoint errorsIs (err target : Error) : bool :=
  match err, target with
  | LazyError e, _ => errorsIs e target
  | ErrInvalidTableName, ErrInvalidTableName => true
  | ErrSchemaNotExist, ErrSchemaNotExist => true
  | ErrAlreadyExist, ErrAlreadyExist => true
  | ErrTableNotExist, ErrTableNotExist => true
  | _, _ => false
  end.

(** A call either returns or panics ([must.NotFail], [must.NoError]). *)
Inductive Res (A : Type) : Type :=
| Returned (a : A)
| Panicked.
Arguments Returned {A} a.
Arguments Panicked {A}.

(** ** Name validation *)

(** [regexp.MustCompile("^[a-zA-Z_][a-zA-Z0-9_]{0,119}$")]. *)
Definition validateCollectionNameRe : Re :=
  Concat BeginText
    (Concat (CharClass [("a", "z"); ("A", "Z"); ("_", "_")]%char)
       (Concat (Repeat (CharClass [("a", "z"); ("A", "Z"); ("0", "9");
                                   ("_", "_")]%char) 0 119)
          EndText)).

(** [regexp.MustCompile("^[a-z_][a-z0-9_]{0,62}$")]. *)
Definition validateDatabaseNameRe : Re :=
  Concat BeginText
    (Concat (CharClass [("a", "z"); ("_", "_")]%char)
       (Concat (Repeat (CharClass [("a", "z"); ("0", "9"); ("_", "_")]%char)
                  0 62)
          EndText)).

(** The first [if] of [CreateCollection]: the name is rejected. *)
Definition nameRejected (reservedPrefix collection : string) : bool :=
  negb (MatchString validateCollectionNameRe collection) ||
  String.prefix reservedPrefix collection.

(** The collection-name rule in the words of the data model: a letter or
    an underscore, then at most 119 letters, digits or underscores. *)
Definition isLetter (c : ascii) : bool :=
  let n := nat_of_ascii c in
  ((97 <=? n) && (n <=? 122)) || ((65 <=? n) && (n <=? 90)).
Definition isDigit (c : ascii) : bool :=
  let n := nat_of_ascii c in (48 <=? n) && (n <=? 57).
Definition isUnderscore (c : ascii) : bool := nat_of_ascii c =? 95.

Definition nameShape (s : string) : bool :=
  match list_ascii_of_string s with
  | [] => false
  | c :: rest =>
      (isLetter c || isUnderscore c) &&
      forallb (fun x => isLetter x || isDigit x || isUnderscore x) rest &&
      (List.length rest <=? 119)
  end.

(** ** The backend *)

Inductive SQL : Type :=
| CreateTableIfNotExists (schema table : string)
| DropTableIfExistsCascade (schema table : string).

(** One exchange with the backend: the call and what came back. *)
Inductive Event : Type :=
| EvSchemaExists (db : string) (r : PgErr + bool)
| EvTables (db : string) (r : PgErr + list string)
| EvGetSettings (db : string) (r : PgErr + Document)
| EvUpdateSettings (db : string) (settings : Document) (r : option PgErr)
| EvExec (sql : SQL) (r : option PgErr).

(** Whether an exchange changes the backend. *)
Definition isWrite (e : Event) : bool :=
  match e with
  | EvUpdateSettings _ _ _ | EvExec _ _ => true
  | _ => false
  end.

Section Catalog.

(** The state of the backend, and what this file's functions call on it.
    [schemaExists], [tables], [getSettingsTable] and [updateSettingsTable]
    live in sibling files of the package; [Exec] is the driver's.  The
    reserved prefix and the table-name encoding are the package's too. *)
Variable W : Type.

Record Querier : Type := {
  qSchemaExists : string -> W -> W * (PgErr + bool);
  qTables : string -> W -> W * (PgErr + list string);
  qGetSettingsTable : string -> W -> W * (PgErr + Document);
  qUpdateSettingsTable : string -> Document -> W -> W * option PgErr;
  qExec : SQL -> W -> W * option PgErr
}.

Variable querier : Querier.
Variable reservedPrefix : string.
Variable formatCollectionName : string -> string.

(** State passing: the backend and the exchanges so far, oldest first. *)
Definition St : Type := (W * list Event)%type.
Definition M (A : Type) : Type := St -> St * A.

Definition ret {A : Type} (a : A) : M A := fun st => (st, a).
Definition bind {A B : Type} (m : M A) (k : A -> M B) : M B :=
  fun st => let (st', a) := m st in k a st'.

Notation "x <- m ;; k" := (bind m (fun x => k))
  (at level 61, m at next level, right associativity).

Definition call {A : Type} (f : W -> W * A) (ev : A -> Event) : M A :=
  fun st =>
    let (w', a) := f (fst st) in ((w', snd st ++ [ev a]), a).

Definition schemaExists (db : string) : M (PgErr + bool) :=
  call (qSchemaExists querier db) (EvSchemaExists db).
Definition tables (db : string) : M (PgErr + list string) :=
  call (qTables querier db) (EvTables db).
Definition getSettingsTable (db : string) : M (PgErr + Document) :=
  call (qGetSettingsTable querier db) (EvGetSettings db).
Definition updateSettingsTable (db : string) (settings : Document)
  : M (option PgErr) :=
  call (qUpdateSettingsTable querier db settings)
       (EvUpdateSettings db settings).
Definition Exec (sql : SQL) : M (option PgErr) :=
  call (qExec querier sql) (EvExec sql).

(** [slices.Contains]. *)
Definition contains (l : list string) (x : string) : bool :=
  existsb (String.eqb x) l.

(** [slices.Sort] on strings: Go compares strings byte by byte.  An
    insertion sort stands for the library routine. *)
Fixpoint insertSorted (x : string) (l : list string) : list string :=
  match l with
  | [] => [x]
  | y :: rest =>
      if String.leb x y then x :: y :: rest else y :: insertSorted x rest
  end.

Definition slicesSort (l : list string) : list string :=
  fold_right insertSorted [] l.

(** [Collections]: the sorted list of collection names. *)
Definition Collections (db : string) : M (Res (list string * option Error)) :=
  r <- schemaExists db ;;
  match r with
  | inl err => ret (Returned ([], Some (LazyError (ErrDriver err))))
  | inr false => ret (Returned ([], Some ErrSchemaNotExist))
  | inr true =>
      r <- getSettingsTable db ;;
      match r with
      | inl err => ret (Returned ([], Some (LazyError (ErrDriver err))))
      | inr settings =>
          match Get settings "collections" with
          | None => ret Panicked
          | Some collectionsDoc =>
              match asDocument collectionsDoc with
              | None =>
                  ret (Returned ([], Some (LazyErrorf
                                             "invalid settings document")))
              | Some collections =>
                  let names := Keys collections in
                  ret (Returned (slicesSort names, None))
              end
          end
      end
  end.

(** The [switch pgErr.Code] at the end of [CreateCollection]. *)
Definition isDuplicateCode (code : string) : bool :=
  String.eqb code UniqueViolation ||
  String.eqb code DuplicateObject ||
  String.eqb code DuplicateTable.

(** [CreateCollection]: [None] is Go's [nil] error. *)
Definition CreateCollection (db collection : string) : M (Res (option Error)) :=
  if negb (MatchString validateCollectionNameRe collection) ||
     String.prefix reservedPrefix collection
  then ret (Returned (Some ErrInvalidTableName))
  else
    r <- schemaExists db ;;
    match r with
    | inl err => ret (Returned (Some (LazyError (ErrDriver err))))
    | inr false => ret (Returned (Some ErrSchemaNotExist))
    | inr true =>
        let table := formatCollectionName collection in
        r <- tables db ;;
        match r with
        | inl err => ret (Returned (Some (ErrDriver err)))
        | inr tbls =>
            if contains tbls table
            then ret (Returned (Some ErrAlreadyExist))
            else
              r <- getSettingsTable db ;;
              match r with
              | inl err => ret (Returned (Some (LazyError (ErrDriver err))))
              | inr settings =>
                  match Get settings "collections" with
                  | None => ret Panicked
                  | Some collectionsDoc =>
                      match asDocument collectionsDoc with
                      | None =>
                          ret (Returned
                                 (Some (LazyErrorf
                                          "expected document but got")))
                      | Some collections =>
                          if Has collections collection
                          then ret (Returned None)
                          else
                            let collections' :=
                              Set_ collections collection (VString table) in
                            let settings' :=
                              Set_ settings "collections"
                                   (VDocument collections') in
                            r <- updateSettingsTable db settings' ;;
                            match r with
                            | Some err =>
                                ret (Returned
                                       (Some (LazyError (ErrDriver err))))
                            | None =>
                                r <- Exec (CreateTableIfNotExists db table) ;;
                                match r with
                                | None => ret (Returned None)
                                | Some (OtherErr msg) =>
                                    ret (Returned
                                           (Some (LazyError
                                                    (ErrDriver (OtherErr msg)))))
                                | Some (PgError code) =>
                                    if isDuplicateCode code
                                    then ret (Returned (Some ErrAlreadyExist))
                                    else
                                      ret (Returned
                                             (Some (LazyError
                                                      (ErrDriver
                                                         (PgError code)))))
                                end
                            end
                      end
                  end
              end
        end
    end.

End Catalog.

(** What a call answered, as [errors.Is] sees it. *)
Definition failsWith (r : Res (option Error)) (target : Error) : bool :=
  match r with
  | Returned (Some e) => errorsIs e target
  | _ => false
  end.

Arguments qSchemaExists {W} _ _ _.
Arguments qTables {W} _ _ _.
Arguments qGetSettingsTable {W} _ _ _.
Arguments qUpdateSettingsTable {W} _ _ _ _.
Arguments qExec {W} _ _ _.
Arguments CreateCollection {W} _ _ _ _ _ _.
Arguments Collections {W} _ _ _.

End Pgdb.

(** ** An in-memory backend

    Modelled from the spec: the PostgreSQL server and the sibling files
    that query it are not part of the sources at hand.  "One schema per
    logical database", "one table per collection", "one reserved metadata
    table per schema holding the settings document".  A plan of injected
    failures, one entry per call, stands for what a real server may answer
    (a lost connection, a concurrent creator). *)
Module MemPg.
Import Types Pgdb.

Record Schema : Type := {
  schTables : list string;
  schSettings : Document
}.

Record DB : Type := {
  dbSchemas : list (string * Schema);
  dbFaults : list (option PgErr)
}.

Definition nextFault (w : DB) : option PgErr * DB :=
  match dbFaults w with
  | [] => (None, w)
  | f :: rest => (f, {| dbSchemas := dbSchemas w; dbFaults := rest |})
  end.

Fixpoint findSchema (l : list (string * Schema)) (db : string)
  : option Schema :=
  match l with
  | [] => None
  | (n, sc) :: rest => if String.eqb n db then Some sc else findSchema rest db
  end.

Fixpoint putSchema (l : list (string * Schema)) (db : string) (sc : Schema)
  : list (string * Schema) :=
  match l with
  | [] => []
  | (n, sc0) :: rest =>
      if String.eqb n db then (n, sc) :: rest
      else (n, sc0) :: putSchema rest db sc
  end.

Definition UndefinedTable : string := "42P01".

Definition memSchemaExists (db : string) (w : DB) : DB * (PgErr + bool) :=
  match nextFault w with
  | (Some e, w') => (w', inl e)
  | (None, w') =>
      (w', inr (match findSchema (dbSchemas w') db with
                | Some _ => true
                | None => false
                end))
  end.

Definition memTables (db : string) (w : DB) : DB * (PgErr + list string) :=
  match nextFault w with
  | (Some e, w') => (w', inl e)
  | (None, w') =>
      (w', inr (match findSchema (dbSchemas w') db with
                | Some sc => schTables sc
                | None => []
                end))
  end.

Definition memGetSettingsTable (db : string) (w : DB)
  : DB * (PgErr + Document) :=
  match nextFault w with
  | (Some e, w') => (w', inl e)
  | (None, w') =>
      (w', match findSchema (dbSchemas w') db with
           | Some sc => inr (schSettings sc)
           | None => inl (PgError UndefinedTable)
           end)
  end.

Definition memUpdateSettingsTable (db : string) (settings : Document)
           (w : DB) : DB * option PgErr :=
  match nextFault w with
  | (Some e, w') => (w', Some e)
  | (None, w') =>
      match findSchema (dbSchemas w') db with
      | Some sc =>
          ({| dbSchemas :=
                putSchema (dbSchemas w') db
                  {| schTables := schTables sc; schSettings := settings |};
              dbFaults := dbFaults w' |}, None)
      | None => (w', Some (PgError UndefinedTable))
      end
  end.

Definition memExec (sql : SQL) (w : DB) : DB * option PgErr :=
  match nextFault w with
  | (Some e, w') => (w', Some e)
  | (None, w') =>
      let (db, newTables) :=
        match sql with
        | CreateTableIfNotExists db t =>
            (db, fun ts => if existsb (String.eqb t) ts then ts else ts ++ [t])
        | DropTableIfExistsCascade db t =>
            (db, fun ts => filter (fun x => negb (String.eqb t x)) ts)
        end in
      match findSchema (dbSchemas w') db with
      | Some sc =>
          ({| dbSchemas :=
                putSchema (dbSchemas w') db
                  {| schTables := newTables (schTables sc);
                     schSettings := schSettings sc |};
              dbFaults := dbFaults w' |}, None)
      | None => (w', Some (PgError InvalidSchemaName))
      end
  end.

Definition memQuerier : Querier DB := {|
  qSchemaExists := memSchemaExists;
  qTables := memTables;
  qGetSettingsTable := memGetSettingsTable;
  qUpdateSettingsTable := memUpdateSettingsTable;
  qExec := memExec
|}.

(** The prefix of the metadata tables, and an encoding of collection
    names into table names, for the examples. *)
Definition reservedPrefix : string := "_ferretdb_".
Definition formatCollectionName (collection : string) : string := collection.

Definition emptySettings : Document := [("collections", VDocument [])].

(** A server with the one schema [acme], no collection in it. *)
Definition acme : DB :=
  {| dbSchemas := [("acme", {| schTables := []; schSettings := emptySettings |})];
     dbFaults := [] |}.

(** The same schema with a catalog entry [users] that has no table. *)
Definition acmeStale : DB :=
  {| dbSchemas :=
       [("acme", {| schTables := [];
                    schSettings :=
                      [("collections",
                        VDocument [("users", VString "users")])] |})];
     dbFaults := [] |}.

(** [acme] when a concurrent creator makes [CREATE TABLE] trip over a
    unique index of the system catalog. *)
Definition acmeRace : DB :=
  {| dbSchemas := dbSchemas acme;
     dbFaults := [None; None; None; None; Some (PgError UniqueViolation)] |}.

(** A schema whose catalog was filled in the order [users], [Orders],
    [accounts]. *)
Definition acmeThree : DB :=
  {| dbSchemas :=
       [("acme",
         {| schTables := ["users"; "Orders"; "accounts"];
            schSettings :=
              [("collections",
                VDocument [("users", VString "users");
                           ("Orders", VString "Orders");
                           ("accounts", VString "accounts")])] |})];
     dbFaults := [] |}.

End MemPg.

Module PgdbFacts.
Import Types Regexp RegexpFacts Pgdb.

(** ** The name pattern *)

(** A pattern of the form [^[head][tail]{0,n}$] accepts exactly the texts
    made of one byte of [head] followed by at most [n] bytes of [tail]. *)
Lemma anchored_name_match (head tail : list (ascii * ascii)) (n : nat)
      (s : string) :
  MatchString
    (Concat BeginText
       (Concat (CharClass head)
          (Concat (Repeat (CharClass tail) 0 n) EndText))) s =
  match list_ascii_of_string s with
  | [] => false
  | c :: rest =>
      inClass head c && forallb (inClass tail) rest &&
      (List.length rest <=? n)
  end.
Proof.
  unfold MatchString.
  rewrite existsb_seq_shift.
  2:{ intros i Hi. cbn [matchAt fst].
      destruct (Nat.eqb_spec i 0) as [->|_]; [lia|reflexivity]. }
  cbn [skipn]. cbn [matchAt fst Nat.eqb flat_map]. rewrite app_nil_r.
  destruct (list_ascii_of_string s) as [|c rest]; cbn [snd]; [reflexivity|].
  destruct (inClass head c); cbn [flat_map andb]; [|reflexivity].
  rewrite app_nil_r. cbn [fst].
  apply eq_true_iff_eq. rewrite nonEmpty_In, andb_true_iff, Nat.leb_le.
  split.
  - intros (q & Hq). apply in_flat_map in Hq. destruct Hq as (p & Hp & Hq).
    apply repeat_class_In in Hp.
    destruct Hp as (pre & Hs & _ & Hlen & Hall).
    cbn [matchAt] in Hq.
    destruct (snd p) as [|x xs]; [|contradiction].
    rewrite app_nil_r in Hs. subst pre. auto.
  - intros [Hall Hlen]. exists (1 + List.length rest, []).
    apply in_flat_map. exists (1 + List.length rest, []). split.
    + apply repeat_class_In. exists rest. cbn [fst snd].
      rewrite app_nil_r. auto.
    + cbn [matchAt snd]. now left.
Qed.

Lemma forallb_eq {A : Type} (f g : A -> bool) (l : list A) :
  (forall x, f x = g x) -> forallb f l = forallb g l.
Proof.
  intros H. induction l as [|a l IH]; simpl; [reflexivity|].
  now rewrite H, IH.
Qed.

Lemma head_class (c : ascii) :
  inClass [("a", "z"); ("A", "Z"); ("_", "_")]%char c =
  isLetter c || isUnderscore c.
Proof. destruct c as [[] [] [] [] [] [] [] []]; reflexivity. Qed.

Lemma tail_class (c : ascii) :
  inClass [("a", "z"); ("A", "Z"); ("0", "9"); ("_", "_")]%char c =
  isLetter c || isDigit c || isUnderscore c.
Proof. destruct c as [[] [] [] [] [] [] [] []]; reflexivity. Qed.

(** The compiled pattern and the rule of the data model agree. *)
Lemma validateCollectionNameRe_shape (s : string) :
  MatchString validateCollectionNameRe s = nameShape s.
Proof.
  unfold validateCollectionNameRe, nameShape.
  rewrite anchored_name_match.
  destruct (list_ascii_of_string s) as [|c rest]; [reflexivity|].
  rewrite head_class.
  now rewrite (forallb_eq _ _ rest tail_class).
Qed.

Example name_users : MatchString validateCollectionNameRe "users" = true.
Proof. reflexivity. Qed.

Example name_1bad : MatchString validateCollectionNameRe "1bad" = false.
Proof. reflexivity. Qed.

Example name_empty : MatchString validateCollectionNameRe "" = false.
Proof. reflexivity. Qed.

(** ** Sorting *)

Definition strLe (a b : string) : Prop := String.leb a b = true.

Lemma strLe_trans (s1 s2 s3 : string) :
  strLe s1 s2 -> strLe s2 s3 -> strLe s1 s3.
Proof.
  unfold strLe, String.leb. revert s2 s3.
  induction s1 as [|c1 s1 IH]; intros [|c2 s2] [|c3 s3]; simpl;
    try congruence; auto.
  unfold Ascii.compare.
  destruct (N.compare_spec (N_of_ascii c1) (N_of_ascii c2));
    destruct (N.compare_spec (N_of_ascii c2) (N_of_ascii c3));
    destruct (N.compare_spec (N_of_ascii c1) (N_of_ascii c3));
    try lia; try congruence; auto.
  apply IH.
Qed.

Lemma insertSorted_perm (x : string) (l : list string) :
  Permutation (insertSorted x l) (x :: l).
Proof.
  induction l as [|y l IH]; simpl; [reflexivity|].
  destruct (String.leb x y); [reflexivity|].
  rewrite IH. apply perm_swap.
Qed.

Lemma slicesSort_perm (l : list string) : Permutation (slicesSort l) l.
Proof.
  induction l as [|x l IH]; simpl; [constructor|].
  rewrite insertSorted_perm. now constructor.
Qed.

Lemma insertSorted_sorted (x : string) (l : list string) :
  Sorted strLe l -> Sorted strLe (insertSorted x l).
Proof.
  induction l as [|y l IH]; intros Hs; simpl.
  - repeat constructor.
  - destruct (String.leb x y) eqn:E.
    + constructor; [assumption|]. now constructor.
    + inversion Hs as [|? ? Hl Hhd]; subst.
      constructor; [now apply IH|].
      assert (Hyx : strLe y x).
      { destruct (String.leb_total x y) as [H|H]; [congruence|exact H]. }
      destruct l as [|z l]; simpl.
      * now constructor.
      * destruct (String.leb x z); constructor; auto.
        now inversion Hhd.
Qed.

Lemma slicesSort_sorted (l : list string) :
  StronglySorted strLe (slicesSort l).
Proof.
  apply Sorted_StronglySorted.
  - intros a b c. apply strLe_trans.
  - induction l as [|x l IH]; simpl; [constructor|].
    now apply insertSorted_sorted.
Qed.

(** ** [Collections] *)

Section CollectionsFacts.

Variable W : Type.
Variable querier : Querier W.

(** C5. On an existing schema [Collections] returns the keys of the
    settings document's [collections] mapping in byte order (which on
    UTF-8 text is code-point order), whatever order they are stored in:
    the result is a sorted rearrangement of the stored keys, and the call
    only reads.  On an absent schema it fails with [ErrSchemaNotExist]. *)
Theorem Collections_sorted_on_read (db : string) (w w1 : W) :
  (forall (w2 : W) (settings collections : Document),
      qSchemaExists querier db w = (w1, inr true) ->
      qGetSettingsTable querier db w1 = (w2, inr settings) ->
      Get settings "collections" = Some (VDocument collections) ->
      exists names,
        Collections querier db (w, []) =
        ((w2, [EvSchemaExists db (inr true);
               EvGetSettings db (inr settings)]),
         Returned (names, None)) /\
        names = slicesSort (Keys collections) /\
        Permutation names (Keys collections) /\
        StronglySorted strLe names) /\
  (qSchemaExists querier db w = (w1, inr false) ->
   Collections querier db (w, []) =
   ((w1, [EvSchemaExists db (inr false)]),
    Returned ([], Some ErrSchemaNotExist))).
Proof.
  split.
  - intros w2 settings collections Hs Hg Hc.
    exists (slicesSort (Keys collections)).
    split; [|split; [reflexivity|split]].
    + unfold Collections, bind, schemaExists, getSettingsTable, call, ret.
      cbn [fst snd]. rewrite Hs. cbn [fst snd]. rewrite Hg, Hc.
      reflexivity.
    + apply slicesSort_perm.
    + apply slicesSort_sorted.
  - intros Hs.
    unfold Collections, bind, schemaExists, call, ret.
    cbn [fst snd]. rewrite Hs. reflexivity.
Qed.

End CollectionsFacts.

(** ** [CreateCollection] *)

Section CreateCollectionFacts.

Variable W : Type.
Variable querier : Querier W.
Variable reservedPrefix : string.
Variable formatCollectionName : string -> string.

Let create := CreateCollection querier reservedPrefix formatCollectionName.

(** C4. Collection-name validation is a total function of the candidate
    string alone: whatever the backend holds, [CreateCollection] answers
    [ErrInvalidTableName] exactly when the name does not match
    [^[a-zA-Z_][a-zA-Z0-9_]{0,119}$] or begins with the reserved prefix;
    and matching that pattern is being a letter or underscore followed by
    at most 119 letters, digits or underscores. *)
Theorem CreateCollection_invalid_name_iff (db collection : string) (st : St W) :
  (failsWith (snd (create db collection st)) ErrInvalidTableName = true <->
   MatchString validateCollectionNameRe collection = false \/
   String.prefix reservedPrefix collection = true) /\
  MatchString validateCollectionNameRe collection = nameShape collection /\
  (nameRejected reservedPrefix collection = true ->
   create db collection st = (st, Returned (Some ErrInvalidTableName))).
Proof.
  split; [|split].
  - unfold create, CreateCollection, nameRejected.
    destruct (MatchString validateCollectionNameRe collection) eqn:Hm;
      destruct (String.prefix reservedPrefix collection) eqn:Hp;
      cbn [negb orb]; try (cbn; intuition congruence).
    unfold bind, schemaExists, tables, getSettingsTable, updateSettingsTable,
      Exec, call, ret.
    split; [|intros [H|H]; discriminate].
    intros H. exfalso. revert H.
    repeat (match goal with
            | |- context [let (_, _) := ?x in _] => destruct x
            | |- context [match ?x with _ => _ end] => destruct x
            end; cbn; try discriminate).
  - apply validateCollectionNameRe_shape.
  - unfold create, CreateCollection, nameRejected. intros ->. reflexivity.
Qed.

(** C9. When the settings document already maps the collection name and
    the physical table is missing, [CreateCollection] returns [nil] at
    once: the backend is asked three questions and given no command (no
    settings update, no CREATE TABLE), the answer is not
    [ErrAlreadyExist], and the backend is left as the three reads left
    it, its catalog entry still without a table. *)
Theorem CreateCollection_stale_entry
        (db collection : string) (w w1 w2 w3 : W)
        (ts : list string) (settings collections : Document) :
  nameRejected reservedPrefix collection = false ->
  qSchemaExists querier db w = (w1, inr true) ->
  qTables querier db w1 = (w2, inr ts) ->
  contains ts (formatCollectionName collection) = false ->
  qGetSettingsTable querier db w2 = (w3, inr settings) ->
  Get settings "collections" = Some (VDocument collections) ->
  Has collections collection = true ->
  let reads := [EvSchemaExists db (inr true); EvTables db (inr ts);
                EvGetSettings db (inr settings)] in
  create db collection (w, []) = ((w3, reads), Returned None) /\
  failsWith (snd (create db collection (w, []))) ErrAlreadyExist = false /\
  filter isWrite (snd (fst (create db collection (w, [])))) = [].
Proof.
  intros Hname Hs Ht Hc Hg Hcs Hhas reads.
  assert (E : create db collection (w, []) = ((w3, reads), Returned None)).
  { unfold create, CreateCollection. unfold nameRejected in Hname.
    rewrite Hname.
    unfold bind, schemaExists, tables, getSettingsTable, call, ret.
    cbn [fst snd]. rewrite Hs. cbn [fst snd]. rewrite Ht, Hc.
    cbn [fst snd]. rewrite Hg, Hcs. cbn [asDocument]. rewrite Hhas.
    reflexivity. }
  rewrite E. auto.
Qed.

(** Destructs the next backend answer in the goal. *)
Ltac next_answer :=
  match goal with
  | |- context [qSchemaExists ?q ?d ?x] =>
      destruct (qSchemaExists q d x) as [? [?|[|]]] eqn:?
  | |- context [qTables ?q ?d ?x] =>
      destruct (qTables q d x) as [? [?|?]] eqn:?
  | |- context [qGetSettingsTable ?q ?d ?x] =>
      destruct (qGetSettingsTable q d x) as [? [?|?]] eqn:?
  | |- context [qUpdateSettingsTable ?q ?d ?s ?x] =>
      destruct (qUpdateSettingsTable q d s x) as [? [?|]] eqn:?
  | |- context [qExec ?q ?c ?x] =>
      destruct (qExec q c x) as [? [[?|?]|]] eqn:?
  | |- context [match ?x with _ => _ end] => destruct x eqn:?
  end; cbn [fst snd app asDocument failsWith errorsIs].

Ltac trace_cases :=
  repeat match goal with
         | H : In _ (_ :: _) |- _ => destruct H as [H|H]
         | H : In _ [] |- _ => destruct H
         | H : False |- _ => destruct H
         | H : _ /\ _ |- _ => destruct H
         | H : exists _, _ |- _ => destruct H
         | H : _ \/ _ |- _ => destruct H
         | H : EvTables _ _ = EvTables _ _ |- _ => inversion H; clear H; subst
         | H : EvExec _ _ = EvExec _ _ |- _ => inversion H; clear H; subst
         end;
  try discriminate; try congruence.

(** C3. [CreateCollection] answers [ErrAlreadyExist] exactly when the
    backend listed the computed table among the schema's tables, or
    answered CREATE TABLE with a unique-violation, duplicate-object or
    duplicate-table code.  When it answers [nil], either the settings
    document already held the name and nothing was sent, or the settings
    document with [collections[collection] = table] was written first and
    CREATE TABLE was sent next. *)
Theorem CreateCollection_already_exist_iff
        (db collection : string) (w : W) :
  let table := formatCollectionName collection in
  let out := create db collection (w, []) in
  let tr := snd (fst out) in
  (failsWith (snd out) ErrAlreadyExist = true <->
   (exists ts, In (EvTables db (inr ts)) tr /\ contains ts table = true) \/
   (exists code,
       In (EvExec (CreateTableIfNotExists db table) (Some (PgError code))) tr /\
       isDuplicateCode code = true)) /\
  (snd out = Returned None ->
   exists ts settings collections,
     contains ts table = false /\
     Get settings "collections" = Some (VDocument collections) /\
     let reads := [EvSchemaExists db (inr true); EvTables db (inr ts);
                   EvGetSettings db (inr settings)] in
     let settings' :=
       Set_ settings "collections"
            (VDocument (Set_ collections collection (VString table))) in
     (Has collections collection = true /\ tr = reads) \/
     (Has collections collection = false /\
      tr = reads ++ [EvUpdateSettings db settings' None;
                     EvExec (CreateTableIfNotExists db table) None])).
Proof.
  intros table out tr. subst tr out table.
  unfold create, CreateCollection.
  destruct (negb (MatchString validateCollectionNameRe collection)
            || String.prefix reservedPrefix collection).
  { cbn. split; [split; [discriminate|intros H; trace_cases]|discriminate]. }
  unfold bind, schemaExists, tables, getSettingsTable, updateSettingsTable,
    Exec, call, ret. cbn [fst snd app].
  repeat next_answer;
    (split;
     [ split; [ try discriminate; intros _ | intros H; trace_cases ]
     | try discriminate; intros _ ]).
  all: try (left; eexists; split; [cbn; eauto|assumption]).
  all: try (right; eexists; split; [cbn; eauto 6|assumption]).
  all: match goal with
       | H : asDocument ?v = Some ?d |- _ =>
           apply asDocument_Some in H; subst v
       end.
  all: do 3 eexists; split; [eassumption|split; [eassumption|]].
  - left. split; [assumption|reflexivity].
  - right. split; [assumption|reflexivity].
Qed.

End CreateCollectionFacts.

(** On a schema whose catalog lists [users] while no table [users]
    exists, the call succeeds and changes nothing. *)
Lemma CreateCollection_stale_entry_witness :
  let reads := [EvSchemaExists "acme" (inr true); EvTables "acme" (inr []);
                EvGetSettings "acme"
                  (inr [("collections",
                         VDocument [("users", VString "users")])])] in
  let run := CreateCollection MemPg.memQuerier MemPg.reservedPrefix
               MemPg.formatCollectionName "acme" "users"
               (MemPg.acmeStale, []) in
  run = ((MemPg.acmeStale, reads), Returned None) /\
  failsWith (snd run) ErrAlreadyExist = false /\
  filter isWrite (snd (fst run)) = [].
Proof.
  exact (CreateCollection_stale_entry MemPg.DB MemPg.memQuerier
           MemPg.reservedPrefix MemPg.formatCollectionName
           "acme" "users" MemPg.acmeStale MemPg.acmeStale MemPg.acmeStale
           MemPg.acmeStale [] _ [("users", VString "users")]
           eq_refl eq_refl eq_refl eq_refl eq_refl eq_refl eq_refl).
Defined.

(** A catalog filled in the order users, Orders, accounts is listed as
    Orders, accounts, users; a schema that does not exist is reported. *)
Lemma Collections_sorted_on_read_witness :
  Collections MemPg.memQuerier "acme" (MemPg.acmeThree, []) =
  ((MemPg.acmeThree,
    [EvSchemaExists "acme" (inr true);
     EvGetSettings "acme"
       (inr [("collections",
              VDocument [("users", VString "users");
                         ("Orders", VString "Orders");
                         ("accounts", VString "accounts")])])]),
   Returned (["Orders"; "accounts"; "users"], None)) /\
  Collections MemPg.memQuerier "nope" (MemPg.acmeThree, []) =
  ((MemPg.acmeThree, [EvSchemaExists "nope" (inr false)]),
   Returned ([], Some ErrSchemaNotExist)).
Proof.
  split.
  - destruct (proj1 (Collections_sorted_on_read MemPg.DB MemPg.memQuerier
                       "acme" MemPg.acmeThree MemPg.acmeThree)
                    MemPg.acmeThree _ _ eq_refl eq_refl eq_refl)
      as (names & Hrun & Hnames & _).
    rewrite Hrun, Hnames. reflexivity.
  - exact (proj2 (Collections_sorted_on_read MemPg.DB MemPg.memQuerier
                    "nope" MemPg.acmeThree MemPg.acmeThree) eq_refl).
Defined.

(** Scenario S1 of the spec: creating [users] in [acme] writes the
    settings document first and creates the table next. *)
Lemma CreateCollection_already_exist_iff_witness :
  let out := CreateCollection MemPg.memQuerier MemPg.reservedPrefix
               MemPg.formatCollectionName "acme" "users" (MemPg.acme, []) in
  snd out = Returned None /\
  snd (fst out) =
  [EvSchemaExists "acme" (inr true); EvTables "acme" (inr []);
   EvGetSettings "acme" (inr MemPg.emptySettings);
   EvUpdateSettings "acme"
     [("collections", VDocument [("users", VString "users")])] None;
   EvExec (CreateTableIfNotExists "acme" "users") None] /\
  MemPg.dbSchemas (fst (fst out)) =
  [("acme",
    {| MemPg.schTables := ["users"];
       MemPg.schSettings :=
         [("collections", VDocument [("users", VString "users")])] |})] /\
  exists ts settings collections,
    contains ts "users" = false /\
    Get settings "collections" = Some (VDocument collections) /\
    ((Has collections "users" = true /\
      snd (fst out) =
      [EvSchemaExists "acme" (inr true); EvTables "acme" (inr ts);
       EvGetSettings "acme" (inr settings)]) \/
     (Has collections "users" = false /\
      snd (fst out) =
      [EvSchemaExists "acme" (inr true); EvTables "acme" (inr ts);
       EvGetSettings "acme" (inr settings)] ++
      [EvUpdateSettings "acme"
         (Set_ settings "collections"
            (VDocument (Set_ collections "users" (VString "users")))) None;
       EvExec (CreateTableIfNotExists "acme" "users") None])).
Proof.
  cbv zeta. split; [reflexivity|]. split; [reflexivity|].
  split; [reflexivity|].
  apply (proj2 (CreateCollection_already_exist_iff
                  MemPg.DB MemPg.memQuerier MemPg.reservedPrefix
                  MemPg.formatCollectionName "acme" "users" MemPg.acme)).
  reflexivity.
Defined.

(** A concurrent creator: CREATE TABLE trips over a unique index. *)
Example create_race :
  snd (CreateCollection MemPg.memQuerier MemPg.reservedPrefix
         MemPg.formatCollectionName "acme" "users" (MemPg.acmeRace, []))
  = Returned (Some ErrAlreadyExist).
Proof. reflexivity. Qed.

(** The table is there already. *)
Example create_twice :
  snd (CreateCollection MemPg.memQuerier MemPg.reservedPrefix
         MemPg.formatCollectionName "acme" "users" (MemPg.acmeThree, []))
  = Returned (Some ErrAlreadyExist).
Proof. reflexivity. Qed.

(** Scenario S5 of the spec: a leading digit; and a reserved name. *)
Example create_1bad :
  CreateCollection MemPg.memQuerier MemPg.reservedPrefix
    MemPg.formatCollectionName "acme" "1bad" (MemPg.acme, [])
  = ((MemPg.acme, []), Returned (Some ErrInvalidTableName)).
Proof. reflexivity. Qed.

Example create_reserved :
  CreateCollection MemPg.memQuerier MemPg.reservedPrefix
    MemPg.formatCollectionName "acme" "_ferretdb_settings" (MemPg.acme, [])
  = ((MemPg.acme, []), Returned (Some ErrInvalidTableName)).
Proof. reflexivity. Qed.

End PgdbFacts.

(* ===================================================================== *)
(** * Shared handler code ([internal/handlers/common]) *)
(* ===================================================================== *)

Module Common.
Import Types.

Local Open Scope Z_scope.

(** Go's conversion to [int32]: the low 32 bits, read as two's
    complement. *)
Definition toInt32 (z : Z) : Z :=
  let r := z mod 2 ^ 32 in
  if r <? 2 ^ 31 then r else r - 2 ^ 32.

(** Error codes of the wire protocol; their numbers are the package's. *)
Inductive ErrorCode : Type :=
| ErrInternalError
| ErrBadValue
| ErrTypeMismatch
| ErrNotImplemented.

(** A Go [error] as the handlers see it: a command error carrying a
    code, or any other error ([lazyerrors], driver failures). *)
Inductive Error : Type :=
| CommandError (code : ErrorCode) (msg : string)
| OtherError (msg : string).

Definition NewErrorMsg (code : ErrorCode) (msg : string) : Error :=
  CommandError code msg.

(** What a step of a handler produces. *)
Inductive Out (A : Type) : Type :=
| Ok (a : A)
| Err (e : Error)
| Panic.
Arguments Ok {A} a.
Arguments Err {A} e.
Arguments Panic {A}.

Definition obind {A B : Type} (o : Out A) (k : A -> Out B) : Out B :=
  match o with
  | Ok a => k a
  | Err e => Err e
  | Panic => Panic
  end.

(** Modelled from the spec: [GetOptionalParam] is not part of the sources
    at hand.  The parameter's default stands when the key is absent
    ("If [ordered] is true (default)"); a value of another variant is
    refused ("typed accessor ... fails with a TypeMismatch error"). *)
Definition GetOptionalParam {T : Type} (as_ : Value -> option T)
           (doc : Document) (key : string) (defaultValue : T) : Out T :=
  match Get doc key with
  | None => Ok defaultValue
  | Some v =>
      match as_ v with
      | Some x => Ok x
      | None => Err (NewErrorMsg ErrTypeMismatch key)
      end
  end.

(** Modelled from the spec: [GetRequiredParam] is not part of the sources
    at hand; as [GetOptionalParam], with an absent key refused. *)
Definition GetRequiredParam {T : Type} (as_ : Value -> option T)
           (doc : Document) (key : string) : Out T :=
  match Get doc key with
  | None => Err (NewErrorMsg ErrBadValue key)
  | Some v =>
      match as_ v with
      | Some x => Ok x
      | None => Err (NewErrorMsg ErrTypeMismatch key)
      end
  end.

(** Modelled from the spec: [AssertType] is not part of the sources at
    hand; the "typed accessor as<T> that fails with a TypeMismatch
    error". *)
Definition AssertType {T : Type} (as_ : Value -> option T) (v : Value)
  : Out T :=
  match as_ v with
  | Some x => Ok x
  | None => Err (NewErrorMsg ErrTypeMismatch "")
  end.

(** Modelled from the spec: [LimitDocuments] is not part of the sources at
    hand.  "Takes a signed 64-bit limit ... the exact sign semantics are:
    [limit == 0] unlimited; [limit == 1] at most one document; other
    positive values bound the count; negative values behave as their
    absolute value". *)
Definition LimitDocuments (docs : list Document) (limit : Z)
  : Out (list Document) :=
  if limit =? 0 then Ok docs
  else Ok (firstn (Z.to_nat (Z.abs limit)) docs).

(** ** Write errors *)

Record writeError : Type := {
  weIndex : Z;
  weCode : ErrorCode;
  weErr : string
}.

Definition WriteErrors : Type := list writeError.

(** Modelled from the spec: [WriteErrors.Append] is not part of the
    sources at hand.  "Errors are captured per-index into a [writeErrors]
    array"; an error that is no command error counts as internal. *)
Definition Append (we : WriteErrors) (err : Error) (index : Z) : WriteErrors :=
  we ++ [match err with
         | CommandError code msg =>
             {| weIndex := index; weCode := code; weErr := msg |}
         | OtherError msg =>
             {| weIndex := index; weCode := ErrInternalError; weErr := msg |}
         end].

Section WriteErrorsDocument.

Variable codeNumber : ErrorCode -> Z.

Definition writeErrorDocument (e : writeError) : Value :=
  VDocument [("index", VInt32 (weIndex e));
             ("code", VInt32 (toInt32 (codeNumber (weCode e))));
             ("errmsg", VString (weErr e))].

(** Modelled from the spec: [WriteErrors.Document] is not part of the
    sources at hand.  "Otherwise add [writeErrors: [{ index, code,
    errmsg }, ...]]"; "per-statement failures return
    [{ writeErrors: [...], n: <count> }] (no [ok] field)". *)
Definition WriteErrorsDocument (we : WriteErrors) : Document :=
  [("writeErrors", VArray (map writeErrorDocument we))].

End WriteErrorsDocument.

End Common.

(* ===================================================================== *)
(** * The delete handler ([internal/handlers/tigris]) *)
(* ===================================================================== *)

Module Tigris.
Import Types Common.

Local Open Scope Z_scope.

(** [tigrisdb.FetchParam]. *)
Record FetchParam : Type := {
  DB : string;
  Collection : string
}.

(** [json.RawMessage]: the bytes [tjson.Marshal] returns. *)
Definition RawMessage : Type := string.

(** [driver.Filter]: the JSON text that [delete] builds, by its shape:
    [{}], [{"_id": {"$eq": id}}] or [{"$or": [...]}], over the
    marshalled ids. *)
Inductive Filter : Type :=
| FilterAll
| FilterIdEq (id : RawMessage)
| FilterOr (ids : list RawMessage).

(** The loop of [MsgDelete]: the backend, the counter [deleted], the
    collected [delErrors], and (for the statements below) the record of
    the calls [processQuery(i)] made so far with what each returned. *)
Record Loop (W : Type) : Type := {
  world : W;
  deleted : Z;
  delErrors : WriteErrors;
  attempts : list (nat * option Error)
}.
Arguments world {W} _.
Arguments deleted {W} _.
Arguments delErrors {W} _.
Arguments attempts {W} _.

Section Handler.

(** The backend and the helpers that live outside this file. *)
Variable W : Type.
Variable DeleteResponse : Type.
Variable Unimplemented : Document -> list string -> option Error.
Variable GetWholeNumberParam : Value -> Out Z.
Variable AliasFromType : Value -> string.
Variable QueryDocuments : FetchParam -> W -> Out (list Document).
Variable FilterDocument : Document -> option Document -> Out bool.

(** [tjson.Marshal] of a value, [None] when it returns an error; and
    whether [json.Marshal] of the filter built from the marshalled ids
    returns without error.  Both calls sit under [must.NotFail]. *)
Variable tjsonMarshal : Value -> option RawMessage.
Variable jsonMarshalable : Filter -> bool.

Variable driverDelete :
  string -> string -> Filter -> W -> W * (string + DeleteResponse).
Variable codeNumber : ErrorCode -> Z.

(** The first loop of [delete]:
    [must.NotFail(tjson.Marshal(must.NotFail(doc.Get("_id"))))] over the
    documents; [None] is a panic of either [must.NotFail]. *)
Fixpoint collectIds (docs : list Document) : option (list RawMessage) :=
  match docs with
  | [] => Some []
  | doc :: rest =>
      match Get doc "_id" with
      | None => None
      | Some v =>
          match tjsonMarshal v with
          | None => None
          | Some id =>
              match collectIds rest with
              | Some ids => Some (id :: ids)
              | None => None
              end
          end
      end
  end.

(** The [switch len(ids)]: what is marshalled in each case. *)
Definition filterOf (ids : list RawMessage) : Filter :=
  match ids with
  | [] => FilterAll
  | [id] => FilterIdEq id
  | _ => FilterOr ids
  end.

(** The filter as bytes: the literal [{}], or
    [must.NotFail(json.Marshal(...))]; [None] is its panic. *)
Definition buildFilter (ids : list RawMessage) : option Filter :=
  match filterOf ids with
  | FilterAll => Some FilterAll
  | f => if jsonMarshalable f then Some f else None
  end.

(** [delete] deletes documents by [_id].  What the backend reports back
    is dropped ([_, err := ...]); the count is [len(ids)]. *)
Definition delete (fp : FetchParam) (docs : list Document) (w : W)
  : W * Out Z :=
  match collectIds docs with
  | None => (w, Panic)
  | Some ids =>
      match buildFilter ids with
      | None => (w, Panic)
      | Some f =>
          let (w', r) := driverDelete (DB fp) (Collection fp) f w in
          match r with
          | inl err => (w', Err (OtherError err))
          | inr _ => (w', Ok (Z.of_nat (List.length ids)))
          end
      end
  end.

(** The loop over the fetched rows: keeps the documents that match. *)
Fixpoint matching (fetchedDocs : list Document) (filter : option Document)
  : Out (list Document) :=
  match fetchedDocs with
  | [] => Ok []
  | doc :: rest =>
      obind (FilterDocument doc filter) (fun matches =>
      obind (matching rest filter) (fun resDocs =>
      Ok (if matches then doc :: resDocs else resDocs)))
  end.

Notation "x <-- m ;; k" := (obind m (fun x => k))
  (at level 61, m at next level, right associativity).

(** The first part of [processQuery(i)], up to [LimitDocuments]: which
    documents of which collection statement [i] is about. *)
Definition selectDocs (document : Document) (deletes : option Array)
           (i : nat) (w : W) : Out (FetchParam * list Document) :=
  match nth_error (match deletes with Some a => a | None => [] end) i with
  | None => Panic
  | Some v =>
      d <-- AssertType asDocument v ;;
      match Unimplemented d ["collation"; "hint"]%string with
      | Some err => Err err
      | None =>
          filter <-- GetOptionalParam
                       (fun v => option_map Some (asDocument v)) d "q" None ;;
          limit <-- match Get d "limit" with
                    | Some l => GetWholeNumberParam l
                    | None => Ok 0
                    end ;;
          db <-- GetRequiredParam asString document "$db" ;;
          match Get document (Command document) with
          | None => Err (OtherError "key not found")
          | Some collectionParam =>
              match asString collectionParam with
              | None =>
                  Err (NewErrorMsg ErrBadValue
                         ("collection name has invalid type " ++
                          AliasFromType collectionParam))
              | Some collection =>
                  let fp := {| DB := db; Collection := collection |} in
                  fetchedDocs <-- QueryDocuments fp w ;;
                  resDocs <-- matching fetchedDocs filter ;;
                  resDocs <-- LimitDocuments resDocs limit ;;
                  Ok (fp, resDocs)
              end
          end
      end
  end.

(** [processQuery(i)]: the backend and the counter go in and come out. *)
Definition processQuery (document : Document) (deletes : option Array)
           (i : nat) (w : W) (deleted : Z) : W * Z * Out unit :=
  match selectDocs document deletes i w with
  | Panic => (w, deleted, Panic)
  | Err e => (w, deleted, Err e)
  | Ok (fp, resDocs) =>
      match resDocs with
      | [] => (w, deleted, Ok tt)
      | _ :: _ =>
          match delete fp resDocs w with
          | (w', Panic) => (w', deleted, Panic)
          | (w', Err e) => (w', deleted, Err e)
          | (w', Ok res) => (w', toInt32 (deleted + toInt32 res), Ok tt)
          end
      end
  end.

(** [for i := 0; i < deletes.Len(); i++], over the indices still to do. *)
Fixpoint processAll (document : Document) (deletes : option Array)
         (ordered : bool) (indices : list nat) (st : Loop W)
  : Out (Loop W) :=
  match indices with
  | [] => Ok st
  | i :: rest =>
      match processQuery document deletes i (world st) (deleted st) with
      | (_, _, Panic) => Panic
      | (w', n', Ok _) =>
          processAll document deletes ordered rest
            {| world := w'; deleted := n'; delErrors := delErrors st;
               attempts := attempts st ++ [(i, None)] |}
      | (w', n', Err err) =>
          let st' :=
            {| world := w'; deleted := n';
               delErrors :=
                 Append (delErrors st) err (toInt32 (Z.of_nat i));
               attempts := attempts st ++ [(i, Some err)] |} in
          if ordered then Ok st'
          else processAll document deletes ordered rest st'
      end
  end.

(** [deletes.Len()]; a nil array has length 0. *)
Definition arrayLen (deletes : option Array) : nat :=
  match deletes with
  | Some a => List.length a
  | None => 0
  end.

(** [MsgDelete] up to the end of its loop.  The wire frame is decoded
    already: [document] is what [msg.Document()] returned. *)
Definition runDeletes (document : Document) (w : W) : Out (Loop W) :=
  match Unimplemented document ["let"]%string with
  | Some err => Err err
  | None =>
      deletes <-- GetOptionalParam (fun v => option_map Some (asArray v))
                    document "deletes" None ;;
      ordered <-- GetOptionalParam asBool document "ordered" true ;;
      processAll document deletes ordered (seq 0 (arrayLen deletes))
        {| world := w; deleted := 0; delErrors := []; attempts := [] |}
  end.

(** The reply document of [MsgDelete]. *)
Definition replyDoc (st : Loop W) : Document :=
  let doc :=
    match delErrors st with
    | _ :: _ => WriteErrorsDocument codeNumber (delErrors st)
    | [] => [("ok", VDouble 1%float)]%string
    end in
  Set_ doc "n" (VInt32 (deleted st)).

(** [MsgDelete]: the backend as the command leaves it, and the reply. *)
Definition MsgDelete (document : Document) (w : W) : Out (W * Document) :=
  st <-- runDeletes document w ;;
  Ok (world st, replyDoc st).

End Handler.

End Tigris.

(** ** An in-memory backend for the handler

    Modelled from the spec: the Tigris driver and the helpers of
    [common] that [MsgDelete] calls are not part of the sources at hand.
    One collection of documents; a filter is a document of string fields
    that must all be equal; the driver removes by [_id] and reports how
    many documents it removed. *)
Module MemTigris.
Import Types Common Tigris.

Local Open Scope Z_scope.

Definition World : Type := list Document.
Definition DeleteResponse : Type := Z.

Definition Unimplemented (doc : Document) (keys : list string)
  : option Error :=
  match filter (Has doc) keys with
  | [] => None
  | k :: _ => Some (NewErrorMsg ErrNotImplemented k)
  end.

Definition GetWholeNumberParam (v : Value) : Out Z :=
  match v with
  | VInt32 n | VInt64 n => Ok n
  | _ => Err (NewErrorMsg ErrBadValue "limit")
  end.

Definition AliasFromType (v : Value) : string :=
  match v with
  | VDocument _ => "object"
  | VArray _ => "array"
  | _ => "scalar"
  end.

Definition QueryDocuments (fp : FetchParam) (w : World)
  : Out (list Document) := Ok w.

Definition sameString (a b : Value) : bool :=
  match a, b with
  | VString x, VString y => String.eqb x y
  | _, _ => false
  end.

Definition FilterDocument (doc : Document) (filter : option Document)
  : Out bool :=
  match filter with
  | None => Ok true
  | Some f =>
      Ok (forallb (fun kv =>
                     match Get doc (fst kv) with
                     | Some v => sameString v (snd kv)
                     | None => false
                     end) f)
  end.

(** Only strings are marshalled (to themselves); every filter is. *)
Definition tjsonMarshal (v : Value) : option RawMessage :=
  match v with
  | VString s => Some s
  | _ => None
  end.

Definition jsonMarshalable (f : Filter) : bool := true.

Definition hasId (id : RawMessage) (doc : Document) : bool :=
  match Get doc "_id" with
  | Some v =>
      match tjsonMarshal v with
      | Some raw => String.eqb raw id
      | None => false
      end
  | None => false
  end.

Definition driverDelete (db collection : string) (f : Filter) (w : World)
  : World * (string + DeleteResponse) :=
  let gone doc :=
    match f with
    | FilterAll => true
    | FilterIdEq id => hasId id doc
    | FilterOr ids => existsb (fun id => hasId id doc) ids
    end in
  let w' := List.filter (fun doc => negb (gone doc)) w in
  (w', inr (Z.of_nat (List.length w) - Z.of_nat (List.length w'))).

Definition codeNumber (c : ErrorCode) : Z :=
  match c with
  | ErrInternalError => 1
  | ErrBadValue => 2
  | ErrTypeMismatch => 14
  | ErrNotImplemented => 238
  end.

Definition runDeletes :=
  Tigris.runDeletes World DeleteResponse Unimplemented GetWholeNumberParam
                    AliasFromType QueryDocuments FilterDocument tjsonMarshal jsonMarshalable driverDelete.
Definition MsgDelete :=
  Tigris.MsgDelete World DeleteResponse Unimplemented GetWholeNumberParam
                   AliasFromType QueryDocuments FilterDocument tjsonMarshal jsonMarshalable driverDelete
                   codeNumber.
Definition processQuery :=
  Tigris.processQuery World DeleteResponse Unimplemented GetWholeNumberParam
                      AliasFromType QueryDocuments FilterDocument tjsonMarshal jsonMarshalable driverDelete.

Definition row (id name : string) : Document :=
  [("_id", VString id); ("name", VString name)]%string.

(** Three documents, and a collection where two documents share an
    [_id]. *)
Definition three : World := [row "1" "a"; row "2" "b"; row "3" "c"].
Definition twins : World := [row "1" "a"; row "1" "b"; row "3" "c"].

Definition byId (id : string) : Value :=
  VDocument [("q", VDocument [("_id", VString id)]);
             ("limit", VInt32 1)]%string.

(** A delete command of three statements whose second is no document. *)
Definition deleteCmd (ordered : list (string * Value)) : Document :=
  [("delete", VString "people");
   ("deletes", VArray [byId "1"; VString "oops"; byId "3"])]%string
  ++ ordered ++ [("$db", VString "acme")]%string.

End MemTigris.

Module TigrisFacts.
Import Types Common Tigris.

Local Open Scope Z_scope.

Lemma toInt32_range (z : Z) : - 2 ^ 31 <= toInt32 z < 2 ^ 31.
Proof.
  unfold toInt32.
  pose proof (Z.mod_pos_bound z (2 ^ 32) ltac:(lia)) as H.
  destruct (z mod 2 ^ 32 <? 2 ^ 31) eqn:E.
  - apply Z.ltb_lt in E. lia.
  - apply Z.ltb_ge in E. lia.
Qed.

Lemma toInt32_small (z : Z) : - 2 ^ 31 <= z < 2 ^ 31 -> toInt32 z = z.
Proof.
  intros H. unfold toInt32.
  destruct (Z_lt_le_dec z 0) as [Hneg|Hpos].
  - replace (z mod 2 ^ 32) with (z + 2 ^ 32).
    + destruct (z + 2 ^ 32 <? 2 ^ 31) eqn:E.
      * apply Z.ltb_lt in E. lia.
      * lia.
    + apply Z.mod_unique with (q := -1); lia.
  - rewrite Z.mod_small by lia.
    destruct (z <? 2 ^ 31) eqn:E; [reflexivity|].
    apply Z.ltb_ge in E. lia.
Qed.

(** The entries that a record of attempts leaves in [delErrors]. *)
Definition collected (tr : list (nat * option Error)) : WriteErrors :=
  flat_map (fun a =>
              match snd a with
              | Some err => Append [] err (toInt32 (Z.of_nat (fst a)))
              | None => []
              end) tr.

Definition succeeded (i : nat) : nat * option Error := (i, None).

Lemma collected_app (t1 t2 : list (nat * option Error)) :
  collected (t1 ++ t2) = collected t1 ++ collected t2.
Proof. unfold collected. apply flat_map_app. Qed.

Lemma collected_succeeded (l : list nat) : collected (map succeeded l) = [].
Proof. induction l as [|i l IH]; simpl; auto. Qed.

Lemma seq_split_inv (pre post : list nat) (k : nat) :
  forall a n, seq a n = pre ++ k :: post ->
              pre = seq a (List.length pre) /\
              k = (a + List.length pre)%nat /\
              (List.length pre < n)%nat.
Proof.
  induction pre as [|x pre IH]; intros a n H.
  - destruct n as [|n]; simpl in *; [discriminate|].
    inversion H; subst. repeat split; lia.
  - destruct n as [|n]; simpl in *; [discriminate|].
    inversion H; subst. destruct (IH _ _ H2) as (Hp & Hk & Hn).
    repeat split; [now rewrite <- Hp|lia|lia].
Qed.

Section HandlerFacts.

Variable W : Type.
Variable DeleteResponse : Type.
Variable Unimplemented : Document -> list string -> option Error.
Variable GetWholeNumberParam : Value -> Out Z.
Variable AliasFromType : Value -> string.
Variable QueryDocuments : FetchParam -> W -> Out (list Document).
Variable FilterDocument : Document -> option Document -> Out bool.
Variable tjsonMarshal : Value -> option RawMessage.
Variable jsonMarshalable : Filter -> bool.
Variable driverDelete :
  string -> string -> Filter -> W -> W * (string + DeleteResponse).
Variable codeNumber : ErrorCode -> Z.

Let select :=
  selectDocs W Unimplemented GetWholeNumberParam AliasFromType
             QueryDocuments FilterDocument.
Let process :=
  processQuery W DeleteResponse Unimplemented GetWholeNumberParam
               AliasFromType QueryDocuments FilterDocument tjsonMarshal jsonMarshalable driverDelete.
Let all :=
  processAll W DeleteResponse Unimplemented GetWholeNumberParam
             AliasFromType QueryDocuments FilterDocument tjsonMarshal jsonMarshalable driverDelete.
Let run :=
  runDeletes W DeleteResponse Unimplemented GetWholeNumberParam
             AliasFromType QueryDocuments FilterDocument tjsonMarshal jsonMarshalable driverDelete.
Let handle :=
  MsgDelete W DeleteResponse Unimplemented GetWholeNumberParam
            AliasFromType QueryDocuments FilterDocument tjsonMarshal jsonMarshalable driverDelete
            codeNumber.

Lemma processQuery_range (document : Document) (deletes : option Array)
      (i : nat) (w : W) (n : Z) :
  - 2 ^ 31 <= n < 2 ^ 31 ->
  - 2 ^ 31 <= snd (fst (process document deletes i w n)) < 2 ^ 31.
Proof.
  intros Hn. unfold process, processQuery.
  destruct (selectDocs _ _ _ _ _ _ _ _ _ _) as [[fp [|d ds]]| |];
    cbn [fst snd]; auto.
  destruct (delete _ _ _ _ _ _) as [w' [res| |]]; cbn [fst snd]; auto.
  apply toInt32_range.
Qed.

(** What the loop leaves behind, by induction on the indices to do. *)
Lemma processAll_trace (document : Document) (deletes : option Array)
      (ordered : bool) :
  forall (indices : list nat) (st st' : Loop W),
    all document deletes ordered indices st = Ok st' ->
    - 2 ^ 31 <= deleted st < 2 ^ 31 ->
    exists tr,
      attempts st' = attempts st ++ tr /\
      delErrors st' = delErrors st ++ collected tr /\
      - 2 ^ 31 <= deleted st' < 2 ^ 31 /\
      if ordered
      then tr = map succeeded indices \/
           exists pre k err post,
             indices = pre ++ k :: post /\
             tr = map succeeded pre ++ [(k, Some err)]
      else map fst tr = indices.
Proof.
  induction indices as [|i rest IH]; intros st st' Hrun Hn.
  - cbn in Hrun. inversion Hrun; subst. exists [].
    rewrite !app_nil_r. repeat split; try lia.
    destruct ordered; auto.
  - unfold all in Hrun. cbn [processAll] in Hrun.
    pose proof (processQuery_range document deletes i (world st) _ Hn) as Hr.
    unfold process in Hr.
    destruct (processQuery _ _ _ _ _ _ _ _ _ _ _ _ _) as [[w' n'] [[]|err|]];
      cbn [fst snd] in Hr; [| |discriminate].
    + apply IH in Hrun; [|exact Hr]. cbn [attempts delErrors deleted] in Hrun.
      destruct Hrun as (tr & Ha & He & Hd & Ho).
      exists ((i, None) :: tr). rewrite Ha, He, <- app_assoc.
      repeat split; try lia.
      destruct ordered.
      * destruct Ho as [->|(pre & k & e & post & -> & ->)]; [now left|].
        right. exists (i :: pre), k, e, post. split; reflexivity.
      * cbn. now rewrite Ho.
    + destruct ordered.
      * inversion Hrun; subst. cbn [attempts delErrors deleted].
        exists [(i, Some err)]. repeat split; try lia.
        right. exists [], i, err, rest. split; reflexivity.
      * apply IH in Hrun; [|exact Hr].
        cbn [attempts delErrors deleted] in Hrun.
        destruct Hrun as (tr & Ha & He & Hd & Ho).
        exists ((i, Some err) :: tr).
        rewrite Ha, He. unfold Append. rewrite <- !app_assoc.
        repeat split; try lia. cbn. now rewrite Ho.
Qed.

(** [Steps document deletes i w n tr w' n']: the calls
    [processQuery(i)], [processQuery(i+1)], ... made one after the
    other, the first on backend [w] and counter [n], each next one on
    what the call before left; [tr] lists, per call, the index and the
    error returned ([None] for [nil]); [w'] and [n'] are the backend and
    the counter after the last call. *)
Inductive Steps (document : Document) (deletes : option Array)
  : nat -> W -> Z -> list (nat * option Error) -> W -> Z -> Prop :=
| Steps_done (i : nat) (w : W) (n : Z) :
    Steps document deletes i w n [] w n
| Steps_ok (i : nat) (w w1 w' : W) (n n1 n' : Z)
           (tr : list (nat * option Error)) :
    process document deletes i w n = (w1, n1, Ok tt) ->
    Steps document deletes (S i) w1 n1 tr w' n' ->
    Steps document deletes i w n ((i, None) :: tr) w' n'
| Steps_err (i : nat) (w w1 w' : W) (n n1 n' : Z) (err : Error)
            (tr : list (nat * option Error)) :
    process document deletes i w n = (w1, n1, Err err) ->
    Steps document deletes (S i) w1 n1 tr w' n' ->
    Steps document deletes i w n ((i, Some err) :: tr) w' n'.

(** The record the loop keeps is the record of the calls it made. *)
Lemma processAll_steps (document : Document) (deletes : option Array)
      (ordered : bool) :
  forall (m i : nat) (st st' : Loop W),
    all document deletes ordered (seq i m) st = Ok st' ->
    exists tr,
      attempts st' = attempts st ++ tr /\
      Steps document deletes i (world st) (deleted st) tr
            (world st') (deleted st').
Proof.
  induction m as [|m IH]; intros i st st' Hrun.
  - cbn in Hrun. inversion Hrun; subst. exists [].
    rewrite app_nil_r. split; [reflexivity|constructor].
  - unfold all in Hrun. cbn [seq processAll] in Hrun.
    destruct (processQuery W DeleteResponse Unimplemented GetWholeNumberParam
                AliasFromType QueryDocuments FilterDocument tjsonMarshal
                jsonMarshalable driverDelete document deletes i
                (world st) (deleted st))
      as [[w1 n1] [[]|err|]] eqn:Hp; [| |discriminate].
    + apply IH in Hrun. cbn [attempts world deleted] in Hrun.
      destruct Hrun as (tr & Ha & Hs).
      exists ((i, None) :: tr). split; [now rewrite Ha, <- app_assoc|].
      eapply Steps_ok; [exact Hp|exact Hs].
    + destruct ordered.
      * inversion Hrun; subst. cbn [attempts world deleted].
        exists [(i, Some err)]. split; [reflexivity|].
        eapply Steps_err; [exact Hp|constructor].
      * apply IH in Hrun. cbn [attempts world deleted] in Hrun.
        destruct Hrun as (tr & Ha & Hs).
        exists ((i, Some err) :: tr). split; [now rewrite Ha, <- app_assoc|].
        eapply Steps_err; [exact Hp|exact Hs].
Qed.

(** C1. A delete command whose loop has run to its end: [ordered] is
    the document's field, [true] when the field is absent.  The calls
    [processQuery(i)] made are those of the record [tr]: made one after
    the other from statement 0 on the backend the command found and the
    counter 0, each with the result recorded, and leaving the backend
    and the counter the loop ends with.  Under [ordered], either no call
    returned an error and every statement was called, or the calls are
    statements [0..k] with [k] the first to return an error: the
    statements after [k] were not called (backend and counter are as
    call [k] left them) and [delErrors] holds that one error at index
    [k].  Without [ordered] every statement of the array was called
    once, in order.  In both cases [delErrors] holds exactly the errors
    returned, each at the index of its statement. *)
Theorem MsgDelete_ordered_unordered
        (document : Document) (w : W) (st : Loop W) :
  run document w = Ok st ->
  exists (deletes : option Array) (ordered : bool),
    GetOptionalParam (fun v => option_map Some (asArray v))
                     document "deletes" None = Ok deletes /\
    GetOptionalParam asBool document "ordered" true = Ok ordered /\
    (Get document "ordered" = None -> ordered = true) /\
    Steps document deletes 0 w 0 (attempts st) (world st) (deleted st) /\
    delErrors st = collected (attempts st) /\
    (ordered = true ->
     (attempts st = map succeeded (seq 0 (arrayLen deletes)) /\
      delErrors st = []) \/
     (exists k err,
         (k < arrayLen deletes)%nat /\
         attempts st = map succeeded (seq 0 k) ++ [(k, Some err)] /\
         delErrors st = Append [] err (toInt32 (Z.of_nat k)))) /\
    (ordered = false ->
     map fst (attempts st) = seq 0 (arrayLen deletes)).
Proof.
  unfold run, runDeletes. intros Hrun.
  destruct (Unimplemented document ["let"%string]); [discriminate|].
  destruct (GetOptionalParam (fun v => option_map Some (asArray v))
                             document "deletes" None)
    as [deletes| |] eqn:Hd; cbn [obind] in Hrun; try discriminate.
  destruct (GetOptionalParam asBool document "ordered" true)
    as [ordered| |] eqn:Ho; cbn [obind] in Hrun; try discriminate.
  exists deletes, ordered.
  pose proof (processAll_steps document deletes ordered _ _ _ _ Hrun)
    as (tr' & Ha' & Hsteps).
  cbn [attempts world deleted app] in Ha', Hsteps. subst tr'.
  apply processAll_trace in Hrun; [|cbn; lia].
  cbn [attempts delErrors app] in Hrun.
  destruct Hrun as (tr & Ha & He & _ & Hshape). subst tr.
  repeat split; auto.
  - unfold GetOptionalParam in Ho. intros Habs. rewrite Habs in Ho.
    congruence.
  - intros ->. destruct Hshape as [Hall|(pre & k & err & post & Hsplit & Htr)].
    + left. split; [assumption|].
      rewrite He, Hall. apply collected_succeeded.
    + right. exists k, err.
      apply seq_split_inv in Hsplit. destruct Hsplit as (Hpre & Hk & Hlt).
      cbn in Hk. remember (List.length pre) as m eqn:Hm.
      subst k. rewrite Hpre in Htr.
      repeat split; [lia|exact Htr|].
      rewrite He, Htr, collected_app, collected_succeeded. cbn.
      now rewrite ?app_nil_r.
  - intros ->. exact Hshape.
Qed.


(** C10. When statement [i] selects a non-empty list [resDocs], the ids
    and the filter are marshalled without panic, and the driver's Delete
    returns without an error, the counter grows by [len(resDocs)] (in
    [int32] arithmetic), whatever response [resp] the driver returned. *)
Theorem processQuery_counts_submitted
        (document : Document) (deletes : option Array) (i : nat)
        (w w' : W) (n : Z) (fp : FetchParam) (resDocs : list Document)
        (ids : list RawMessage) (resp : DeleteResponse) :
  select document deletes i w = Ok (fp, resDocs) ->
  resDocs <> [] ->
  collectIds tjsonMarshal resDocs = Some ids ->
  jsonMarshalable (filterOf ids) = true ->
  driverDelete (DB fp) (Collection fp) (filterOf ids) w = (w', inr resp) ->
  List.length ids = List.length resDocs /\
  delete W DeleteResponse tjsonMarshal jsonMarshalable driverDelete
         fp resDocs w =
  (w', Ok (Z.of_nat (List.length resDocs))) /\
  process document deletes i w n =
  (w', toInt32 (n + toInt32 (Z.of_nat (List.length resDocs))), Ok tt).
Proof.
  intros Hsel Hne Hids Hjson Hdrv.
  assert (Hlen : List.length ids = List.length resDocs).
  { clear Hsel Hne Hdrv Hjson. revert ids Hids.
    induction resDocs as [|d ds IH]; intros ids Hids; cbn in Hids.
    - now inversion Hids.
    - destruct (Get d "_id") as [v|]; [|discriminate].
      destruct (tjsonMarshal v); [|discriminate].
      destruct (collectIds tjsonMarshal ds) as [ids'|]; [|discriminate].
      inversion Hids; subst. cbn. f_equal. now apply IH. }
  assert (Hdel : delete W DeleteResponse tjsonMarshal jsonMarshalable
                        driverDelete fp resDocs w =
                 (w', Ok (Z.of_nat (List.length resDocs)))).
  { assert (Hb : buildFilter jsonMarshalable ids = Some (filterOf ids)).
    { unfold buildFilter. destruct (filterOf ids); rewrite ?Hjson;
        reflexivity. }
    unfold delete. rewrite Hids, Hb, Hdrv, Hlen. reflexivity. }
  split; [exact Hlen|split; [exact Hdel|]].
  unfold process, processQuery. fold select. rewrite Hsel.
  destruct resDocs as [|d ds]; [congruence|].
  rewrite Hdel. reflexivity.
Qed.

End HandlerFacts.

(** ** The statements at concrete commands *)

Import MemTigris.

(** Three statements, the second one malformed, [ordered: false]: all
    three are called, the error sits at index 1, two documents go. *)
Lemma MsgDelete_ordered_unordered_witness :
  exists st,
    MemTigris.runDeletes (deleteCmd [("ordered", VBool false)]%string) three
    = Ok st /\
    st = {| world := [row "2" "b"];
            deleted := 2;
            delErrors := [{| weIndex := 1; weCode := ErrTypeMismatch;
                             weErr := "" |}];
            attempts := [(0%nat, None);
                         (1%nat, Some (CommandError ErrTypeMismatch ""));
                         (2%nat, None)] |} /\
    exists (deletes : option Array) (ordered : bool),
      GetOptionalParam (fun v => option_map Some (asArray v))
        (deleteCmd [("ordered", VBool false)]%string) "deletes" None
      = Ok deletes /\
      GetOptionalParam asBool (deleteCmd [("ordered", VBool false)]%string)
        "ordered" true = Ok ordered /\
      (Get (deleteCmd [("ordered", VBool false)]%string) "ordered" = None ->
       ordered = true) /\
      Steps World DeleteResponse Unimplemented GetWholeNumberParam
            AliasFromType QueryDocuments FilterDocument tjsonMarshal
            jsonMarshalable driverDelete
            (deleteCmd [("ordered", VBool false)]%string) deletes
            0 three 0 (attempts st) (world st) (deleted st) /\
      delErrors st = collected (attempts st) /\
      (ordered = true ->
       (attempts st = map succeeded (seq 0 (arrayLen deletes)) /\
        delErrors st = []) \/
       (exists k err,
           (k < arrayLen deletes)%nat /\
           attempts st = map succeeded (seq 0 k) ++ [(k, Some err)] /\
           delErrors st = Append [] err (toInt32 (Z.of_nat k)))) /\
      (ordered = false ->
       map fst (attempts st) = seq 0 (arrayLen deletes)).
Proof.
  eexists. split; [reflexivity|]. split; [reflexivity|].
  apply (MsgDelete_ordered_unordered
           World DeleteResponse Unimplemented GetWholeNumberParam
           AliasFromType QueryDocuments FilterDocument tjsonMarshal
           jsonMarshalable driverDelete
           (deleteCmd [("ordered", VBool false)]%string) three).
  reflexivity.
Defined.

Example delete_ordered_default :
  MemTigris.runDeletes (deleteCmd []) three =
  Ok {| world := [row "2" "b"; row "3" "c"];
        deleted := 1;
        delErrors := [{| weIndex := 1; weCode := ErrTypeMismatch;
                         weErr := "" |}];
        attempts := [(0%nat, None);
                     (1%nat, Some (CommandError ErrTypeMismatch ""))] |}.
Proof. reflexivity. Qed.

Example delete_unordered :
  MemTigris.runDeletes (deleteCmd [("ordered", VBool false)]%string) three =
  Ok {| world := [row "2" "b"];
        deleted := 2;
        delErrors := [{| weIndex := 1; weCode := ErrTypeMismatch;
                         weErr := "" |}];
        attempts := [(0%nat, None);
                     (1%nat, Some (CommandError ErrTypeMismatch ""));
                     (2%nat, None)] |}.
Proof. reflexivity. Qed.


(** Scenario S4 of the spec: the second statement matches nothing. *)
Example delete_S4 :
  MemTigris.MsgDelete
    [("delete", VString "people");
     ("deletes", VArray [byId "1"; byId "nope"]);
     ("$db", VString "acme")]%string three =
  Ok ([row "2" "b"; row "3" "c"],
      [("ok", VDouble 1%float); ("n", VInt32 1)]%string).
Proof. reflexivity. Qed.

(** Two stored documents share the [_id] of the one document selected
    (limit 1): the driver reports two deletions, the counter grows by
    one. *)
Lemma processQuery_counts_submitted_witness :
  let document :=
    [("delete", VString "people"); ("deletes", VArray [byId "1"]);
     ("$db", VString "acme")]%string in
  let fp := {| DB := "acme"; Collection := "people" |} in
  driverDelete "acme" "people" (FilterIdEq "1") twins =
  ([row "3" "c"], inr 2) /\
  (List.length ["1"%string] = List.length [row "1" "a"] /\
   delete World DeleteResponse tjsonMarshal jsonMarshalable driverDelete
          fp [row "1" "a"] twins =
   ([row "3" "c"], Ok (Z.of_nat (List.length [row "1" "a"]))) /\
   MemTigris.processQuery document (Some [byId "1"]) 0 twins 0 =
   ([row "3" "c"],
    toInt32 (0 + toInt32 (Z.of_nat (List.length [row "1" "a"]))), Ok tt)).
Proof.
  split; [reflexivity|].
  apply (processQuery_counts_submitted
           World DeleteResponse Unimplemented GetWholeNumberParam
           AliasFromType QueryDocuments FilterDocument tjsonMarshal
           jsonMarshalable driverDelete
           _ (Some [byId "1"]) 0%nat twins [row "3" "c"] 0
           {| DB := "acme"; Collection := "people" |}
           [row "1" "a"] ["1"%string] 2).
  - reflexivity.
  - discriminate.
  - reflexivity.
  - reflexivity.
  - reflexivity.
Defined.

End TigrisFacts.

Module CommonFacts.
Import Types Common.

Local Open Scope Z_scope.

Lemma firstn_prefix {A : Type} (n : nat) (l : list A) :
  firstn n l = firstn (List.length (firstn n l)) l.
Proof.
  rewrite length_firstn.
  destruct (Nat.le_ge_cases n (List.length l)) as [H|H].
  - now rewrite Nat.min_l.
  - rewrite Nat.min_r by exact H. now rewrite !firstn_all2.
Qed.

(** C7. For a limit in the range of a signed 64-bit integer,
    [LimitDocuments] returns a prefix of the documents: all of them for
    limit 0, at most one for limit 1, at most [limit] for a positive
    limit, and for a negative limit what it returns for the absolute
    value. *)
Theorem LimitDocuments_sign_semantics (docs : list Document) (limit : Z) :
  - 2 ^ 63 <= limit < 2 ^ 63 ->
  exists res,
    LimitDocuments docs limit = Ok res /\
    res = firstn (List.length res) docs /\
    (limit = 0 -> res = docs) /\
    (limit = 1 -> (List.length res <= 1)%nat) /\
    (0 < limit -> Z.of_nat (List.length res) <= limit /\
                  (limit <= Z.of_nat (List.length docs) ->
                   Z.of_nat (List.length res) = limit) /\
                  (Z.of_nat (List.length docs) <= limit -> res = docs)) /\
    (limit < 0 -> LimitDocuments docs (Z.abs limit) = Ok res /\
                  LimitDocuments docs (- limit) = Ok res).
Proof.
  intros _. unfold LimitDocuments.
  destruct (Z.eqb_spec limit 0) as [->|Hne].
  - exists docs. repeat split; try lia; auto.
    now rewrite firstn_all.
  - exists (firstn (Z.to_nat (Z.abs limit)) docs).
    split; [reflexivity|]. split; [apply firstn_prefix|].
    rewrite length_firstn.
    repeat split; try lia.
    + intros Hall. rewrite firstn_all2; [reflexivity|lia].
    + destruct (Z.eqb_spec (Z.abs limit) 0); [lia|].
      do 3 f_equal. lia.
    + destruct (Z.eqb_spec (- limit) 0); [lia|].
      do 3 f_equal. lia.
Qed.

Lemma LimitDocuments_sign_semantics_witness :
  exists res,
    LimitDocuments [[("a", VNull)]; [("b", VNull)]; [("c", VNull)]]%string (-2)
    = Ok res /\
    res = firstn (List.length res)
            [[("a", VNull)]; [("b", VNull)]; [("c", VNull)]]%string /\
    (-2 = 0 -> res = [[("a", VNull)]; [("b", VNull)]; [("c", VNull)]]%string) /\
    (-2 = 1 -> (List.length res <= 1)%nat) /\
    (0 < -2 -> Z.of_nat (List.length res) <= -2 /\
               (-2 <= Z.of_nat 3 -> Z.of_nat (List.length res) = -2) /\
               (Z.of_nat 3 <= -2 ->
                res = [[("a", VNull)]; [("b", VNull)]; [("c", VNull)]]%string)) /\
    (-2 < 0 ->
     LimitDocuments [[("a", VNull)]; [("b", VNull)]; [("c", VNull)]]%string
                    (Z.abs (-2)) = Ok res /\
     LimitDocuments [[("a", VNull)]; [("b", VNull)]; [("c", VNull)]]%string
                    (- -2) = Ok res).
Proof.
  apply (LimitDocuments_sign_semantics
           [[("a", VNull)]; [("b", VNull)]; [("c", VNull)]]%string (-2)).
  lia.
Defined.

Example limit_two_of_three :
  LimitDocuments [[("a", VNull)]; [("b", VNull)]; [("c", VNull)]]%string (-2)
  = Ok [[("a", VNull)]; [("b", VNull)]]%string.
Proof. reflexivity. Qed.

End CommonFacts.

(* ===================================================================== *)
(** * The streaming cursor ([pgdb.QueryDocuments]) *)
(* ===================================================================== *)

Module Cursor.
Import Types.

(** The error kinds a cursor and its transaction can surface. *)
Inductive ErrorKind : Type :=
| Cancelled
| Internal (msg : string).

(** Modelled from the spec: the iterator behind [QueryDocuments] is not
    part of the sources at hand (only its test is).  "A background
    producer pulls rows from the backend's server-side cursor in batches
    (fixed slice capacity) and deposits each batch on a bounded channel
    of depth buffer size." *)
Record Iterator : Type := {
  rows : list Document;
  chan : list (list Document);
  closed : bool;
  cancelled : bool;
  current : list Document;
  err : option ErrorKind
}.

Section Iterator.

(** [QueryIteratorBufSize] and [QueryIteratorSliceCapacity]. *)
Variable QueryIteratorBufSize : nat.
Variable QueryIteratorSliceCapacity : nat.

(** Modelled from the spec: a cursor over the rows of a table; [None] is
    a table that does not exist, on which "[next()] immediately returns
    false with no error". *)
Definition QueryDocuments (table : option (list Document)) : Iterator :=
  match table with
  | Some docs =>
      {| rows := docs; chan := []; closed := false; cancelled := false;
         current := []; err := None |}
  | None =>
      {| rows := []; chan := []; closed := true; cancelled := false;
         current := []; err := None |}
  end.

(** [cancel()] on the context the cursor was made with. *)
Definition cancel (c : Iterator) : Iterator :=
  {| rows := rows c; chan := chan c; closed := closed c; cancelled := true;
     current := current c; err := err c |}.

Definition closeChan (c : Iterator) : Iterator :=
  {| rows := rows c; chan := chan c; closed := true;
     cancelled := cancelled c; current := current c; err := err c |}.

(** Modelled from the spec: one step of the producer.  "When the token
    is cancelled, the producer stops enqueuing and closes the channel";
    with the rows exhausted it closes the channel; with the channel full
    it waits. *)
Definition produce (c : Iterator) : Iterator :=
  if closed c then c
  else if cancelled c then closeChan c
  else
    match rows c with
    | [] => closeChan c
    | _ :: _ =>
        if List.length (chan c) <? QueryIteratorBufSize
        then {| rows := skipn QueryIteratorSliceCapacity (rows c);
                chan := chan c ++ [firstn QueryIteratorSliceCapacity (rows c)];
                closed := false; cancelled := cancelled c;
                current := current c; err := err c |}
        else c
    end.

Fixpoint produceN (k : nat) (c : Iterator) : Iterator :=
  match k with
  | O => c
  | S k' => produceN k' (produce c)
  end.

(** A receive on the channel: a batch, the end of the stream, or
    nothing yet ([None]). *)
Definition recv (c : Iterator) : option (bool * Iterator) :=
  match chan c with
  | b :: rest =>
      Some (true, {| rows := rows c; chan := rest; closed := closed c;
                     cancelled := cancelled c; current := b;
                     err := err c |})
  | [] =>
      if closed c
      then Some (false, {| rows := rows c; chan := []; closed := true;
                           cancelled := cancelled c; current := [];
                           err := err c |})
      else None
  end.

(** Modelled from the spec: [next()], "advances to the next batch".  The
    producer runs concurrently: [k] is how many steps it gets before the
    receive; a consumer that finds the channel empty and open waits for
    the producer's next step.  [None] is a consumer that waits for
    ever. *)
Definition Next (k : nat) (c : Iterator) : option (bool * Iterator) :=
  let c1 := produceN k c in
  match recv c1 with
  | Some r => Some r
  | None => recv (produce c1)
  end.

(** [batch()] / [DocumentsFiltered(nil)]: the current batch. *)
Definition Batch (c : Iterator) : list Document * option ErrorKind :=
  (current c, err c).

(** [for it.Next() { ... }]: the documents of every batch, in order.
    [sched] gives the producer's steps before each receive. *)
Fixpoint drain (fuel : nat) (sched : list nat) (c : Iterator)
         (acc : list Document) : option (list Document) :=
  match fuel with
  | O => None
  | S fuel' =>
      match Next (hd 0 sched) c with
      | None => None
      | Some (false, _) => Some acc
      | Some (true, c') => drain fuel' (tl sched) c' (acc ++ current c')
      end
  end.

(** Modelled from the spec: "Rollback of a cancelled transaction returns
    a Cancelled error". *)
Definition Rollback (ctxCancelled : bool) : option ErrorKind :=
  if ctxCancelled then Some Cancelled else None.

(** Modelled from the spec: the [find] command over a collection, with
    no filter: "successful operations return [{ ok: 1.0, n: <count> }]".
    A collection unknown to the catalog has no table. *)
Definition find (table : option (list Document)) (sched : list nat)
  : option (list Document * Document) :=
  let c := QueryDocuments table in
  match drain (S (List.length (rows c))) sched c [] with
  | Some docs =>
      Some (docs,
            [("ok", VDouble 1%float);
             ("n", VInt32 (Common.toInt32 (Z.of_nat (List.length docs))))])
  | None => None
  end.

End Iterator.

End Cursor.

Module CursorFacts.
Import Types Cursor.

Section IteratorFacts.

Variable bufSize : nat.
Variable sliceCap : nat.

Let produce := Cursor.produce bufSize sliceCap.
Let produceN := Cursor.produceN bufSize sliceCap.
Let Next := Cursor.Next bufSize sliceCap.
Let drain := Cursor.drain bufSize sliceCap.

(** ** A closed channel *)

Lemma produceN_closed (k : nat) (c : Iterator) :
  closed c = true -> produceN k c = c.
Proof.
  revert c. induction k as [|k IH]; intros c Hc; [reflexivity|].
  cbn. unfold Cursor.produce. rewrite Hc. now apply IH.
Qed.

(** ** After cancellation *)

Lemma produce_cancelled (c : Iterator) :
  cancelled c = true ->
  chan (produce c) = chan c /\ cancelled (produce c) = true /\
  closed (produce c) = true /\ err (produce c) = err c.
Proof.
  intros Hc. unfold produce, Cursor.produce.
  destruct (closed c) eqn:Hcl; [auto|].
  rewrite Hc. cbn. auto.
Qed.

Lemma produceN_cancelled (k : nat) (c : Iterator) :
  cancelled c = true ->
  chan (produceN k c) = chan c /\ cancelled (produceN k c) = true /\
  err (produceN k c) = err c.
Proof.
  revert c. induction k as [|k IH]; intros c Hc; [auto|].
  cbn. destruct (produce_cancelled c Hc) as (Hch & Hca & _ & He).
  destruct (IH (produce c) Hca) as (Hch' & Hca' & He').
  fold produce. rewrite Hch', Hch, He', He. auto.
Qed.

Lemma Next_cancelled_batch (k : nat) (c : Iterator) (b : list Document)
      (rest : list (list Document)) :
  cancelled c = true -> chan c = b :: rest ->
  exists c', Next k c = Some (true, c') /\ chan c' = rest /\
             current c' = b /\ cancelled c' = true.
Proof.
  intros Hc Hch.
  destruct (produceN_cancelled k c Hc) as (Hch' & Hca' & _).
  unfold Next, Cursor.Next, recv. fold produceN.
  rewrite Hch', Hch. eexists. split; [reflexivity|]. cbn. auto.
Qed.

Lemma Next_cancelled_end (k : nat) (c : Iterator) :
  cancelled c = true -> chan c = [] ->
  exists c', Next k c = Some (false, c') /\ current c' = [] /\
             err c' = err c.
Proof.
  intros Hc Hch.
  destruct (produceN_cancelled k c Hc) as (Hch' & Hca' & He').
  unfold Next, Cursor.Next, recv. fold produceN. fold produce.
  rewrite Hch', Hch.
  destruct (closed (produceN k c)) eqn:Hcl.
  - eexists. split; [reflexivity|]. cbn. auto.
  - destruct (produce_cancelled (produceN k c) Hca') as (Hp & _ & Hpc & Hpe).
    rewrite Hp, Hch', Hch, Hpc.
    eexists. split; [reflexivity|]. cbn. rewrite Hpe. auto.
Qed.

(** Draining a cancelled cursor yields what was already enqueued. *)
Lemma drain_cancelled (pending : list (list Document)) :
  forall (fuel : nat) (sched : list nat) (c : Iterator) (acc : list Document),
    cancelled c = true -> chan c = pending ->
    List.length pending < fuel ->
    drain fuel sched c acc = Some (acc ++ List.concat pending).
Proof.
  induction pending as [|b rest IH]; intros fuel sched c acc Hc Hch Hfuel;
    (destruct fuel as [|fuel]; [cbn in Hfuel; lia|]).
  - destruct (Next_cancelled_end (hd 0 sched) c Hc Hch) as (c' & HN & _).
    unfold drain. cbn [Cursor.drain]. fold Next. rewrite HN.
    cbn. now rewrite app_nil_r.
  - destruct (Next_cancelled_batch (hd 0 sched) c b rest Hc Hch)
      as (c' & HN & Hch' & Hcur & Hc').
    unfold drain. cbn [Cursor.drain]. fold Next. rewrite HN. fold drain.
    rewrite (IH fuel (tl sched) c' (acc ++ current c') Hc' Hch').
    + rewrite Hcur. cbn. now rewrite app_assoc.
    + cbn in Hfuel. lia.
Qed.

(** ** Before the consumer starts *)

Definition bounded (c : Iterator) : Prop :=
  List.length (chan c) <= bufSize /\
  Forall (fun b : list Document => List.length b <= sliceCap) (chan c).

Lemma produce_bounded (c : Iterator) : bounded c -> bounded (produce c).
Proof.
  intros [Hlen Hall]. unfold produce, Cursor.produce.
  destruct (closed c); [split; assumption|].
  destruct (cancelled c); [split; assumption|].
  destruct (rows c) as [|r rs] eqn:Hrows; [split; assumption|].
  destruct (Nat.ltb_spec (List.length (chan c)) bufSize) as [Hlt|Hge];
    [|split; assumption].
  split; cbn.
  - rewrite length_app. cbn. lia.
  - apply Forall_app. split; [assumption|].
    constructor; [|constructor]. rewrite length_firstn. lia.
Qed.

Lemma produceN_bounded (k : nat) (c : Iterator) :
  bounded c -> bounded (produceN k c).
Proof.
  revert c. induction k as [|k IH]; intros c Hb; [exact Hb|].
  cbn. apply IH. now apply produce_bounded.
Qed.

Lemma concat_bounded (l : list (list Document)) :
  Forall (fun b : list Document => List.length b <= sliceCap) l ->
  List.length (List.concat l) <= List.length l * sliceCap.
Proof.
  induction 1 as [|b l Hb _ IH]; cbn; [lia|].
  rewrite length_app. lia.
Qed.

(** C8. A cursor over more documents than buffer size times slice
    capacity whose context is cancelled before the first [next()]:
    however far the producer got before the cancellation and however it
    is scheduled afterwards, draining the cursor ends (no receive waits
    for ever), yields what was enqueued and so strictly fewer documents
    than the table holds, and a rollback under the cancelled context
    returns [Cancelled]. *)
Theorem cancel_before_next_bounded
        (docs : list Document) (before : nat) (sched : list nat)
        (fuel : nat) :
  bufSize * sliceCap < List.length docs ->
  bufSize < fuel ->
  let c := cancel (produceN before (QueryDocuments (Some docs))) in
  exists yielded,
    drain fuel sched c [] = Some yielded /\
    yielded = List.concat (chan c) /\
    List.length yielded <= bufSize * sliceCap /\
    List.length yielded < List.length docs /\
    Rollback (cancelled c) = Some Cancelled.
Proof.
  intros Hbig Hfuel c.
  assert (Hb : bounded (produceN before (QueryDocuments (Some docs)))).
  { apply produceN_bounded. split; cbn; [lia|constructor]. }
  destruct Hb as [Hlen Hall].
  assert (Hch : chan c = chan (produceN before (QueryDocuments (Some docs))))
    by reflexivity.
  exists (List.concat (chan c)).
  assert (Hsize : List.length (List.concat (chan c)) <= bufSize * sliceCap).
  { rewrite Hch. pose proof (concat_bounded _ Hall) as H.
    eapply Nat.le_trans; [exact H|]. now apply Nat.mul_le_mono_r. }
  repeat split.
  - rewrite (drain_cancelled (chan c) fuel sched c []); auto.
    rewrite Hch. lia.
  - exact Hsize.
  - lia.
Qed.

(** C6. A cursor over a table that does not exist: the first [next()]
    returns false whatever the producer did meanwhile, no error is
    latched, the batch is empty, draining yields no document, and [find]
    replies [{ok: 1.0, n: 0}]. *)
Theorem nonexisting_table_cursor (k : nat) (sched : list nat) :
  let c := QueryDocuments None in
  (exists c', Next k c = Some (false, c') /\ Batch c' = ([], None)) /\
  Batch c = ([], None) /\
  drain 1 sched c [] = Some [] /\
  find bufSize sliceCap None sched =
  Some ([], [("ok", VDouble 1%float); ("n", VInt32 0)]).
Proof.
  intros c.
  assert (HN : forall j, Next j c =
                         Some (false, {| rows := []; chan := []; closed := true;
                                         cancelled := false; current := [];
                                         err := None |})).
  { intros j. unfold Next, Cursor.Next. fold produceN.
    rewrite produceN_closed by reflexivity. reflexivity. }
  split; [|split; [|split]].
  - eexists. split; [apply HN|reflexivity].
  - reflexivity.
  - unfold drain. cbn [Cursor.drain]. fold Next. now rewrite HN.
  - unfold find. cbn [QueryDocuments rows List.length Cursor.drain].
    fold Next. fold c. now rewrite HN.
Qed.

End IteratorFacts.

(** With a buffer of four batches of two documents, nine documents, a
    producer that fills the buffer before the cancellation: eight
    documents come out. *)
Definition numbered (n : nat) : list Document :=
  map (fun i => [("id", VInt32 (Z.of_nat i))]) (seq 1 n).

Lemma cancel_before_next_bounded_witness :
  exists yielded,
    drain 4 2 5 [0; 3]
          (cancel (produceN 4 2 7 (QueryDocuments (Some (numbered 9))))) []
    = Some yielded /\
    yielded =
    List.concat (chan (cancel (produceN 4 2 7
                            (QueryDocuments (Some (numbered 9)))))) /\
    List.length yielded <= 4 * 2 /\
    List.length yielded < List.length (numbered 9) /\
    Rollback (cancelled (cancel (produceN 4 2 7
                                   (QueryDocuments (Some (numbered 9))))))
    = Some Cancelled.
Proof.
  apply (cancel_before_next_bounded 4 2 (numbered 9) 7 [0; 3] 5).
  - cbn. lia.
  - lia.
Defined.

Example cancel_after_full_buffer :
  drain 4 2 5 [0; 3]
        (cancel (produceN 4 2 7 (QueryDocuments (Some (numbered 9))))) []
  = Some (numbered 8).
Proof. reflexivity. Qed.

(** The cases of [TestQueryDocuments]: three documents come in batches
    of two and one. *)
Example three_documents :
  drain 4 2 4 [] (QueryDocuments (Some (numbered 3))) [] = Some (numbered 3).
Proof. reflexivity. Qed.

End CursorFacts.

(* ===================================================================== *)
(** * The rest of [collections.go] *)
(* ===================================================================== *)

Module PgdbMore.
Import Types Regexp Pgdb.

Section Catalog.

Variable W : Type.
Variable querier : Querier W.
Variable reservedPrefix : string.
Variable formatCollectionName : string -> string.

(** [CreateDatabase] and [removeTableFromSettings] live in sibling files
    of the package: they are taken as they come, as functions of the
    backend.  What they exchange with it is not recorded. *)
Variable CreateDatabase : string -> W -> W * option Error.
Variable removeTableFromSettings : string -> string -> W -> W * option Error.

Notation "x <- m ;; k" := (bind W m (fun x => k))
  (at level 61, m at next level, right associativity).

Definition quiet {A : Type} (f : W -> W * A) : M W A :=
  fun st => let (w', a) := f (fst st) in ((w', snd st), a).

(** [CollectionExists] returns true if the collection exists. *)
Definition CollectionExists (db collection : string)
  : M W (Res (bool * option Error)) :=
  r <- Collections querier db ;;
  match r with
  | Panicked => ret W Panicked
  | Returned (_, Some err) =>
      if errorsIs err ErrSchemaNotExist
      then ret W (Returned (false, None))
      else ret W (Returned (false, Some err))
  | Returned (collections, None) =>
      ret W (Returned (contains collections collection, None))
  end.

(** [CreateCollectionIfNotExist]: true is returned if the table was
    created. *)
Definition CreateCollectionIfNotExist (db collection : string)
  : M W (Res (bool * option Error)) :=
  r <- CollectionExists db collection ;;
  match r with
  | Panicked => ret W Panicked
  | Returned (_, Some err) => ret W (Returned (false, Some (LazyError err)))
  | Returned (true, None) => ret W (Returned (false, None))
  | Returned (false, None) =>
      let create : M W (Res (bool * option Error)) :=
        r <- CreateCollection querier reservedPrefix formatCollectionName
               db collection ;;
        match r with
        | Panicked => ret W Panicked
        | Returned (Some err) =>
            if errorsIs err ErrAlreadyExist
            then ret W (Returned (false, None))
            else ret W (Returned (false, Some (LazyError err)))
        | Returned None => ret W (Returned (true, None))
        end in
      e <- quiet (CreateDatabase db) ;;
      match e with
      | Some err =>
          if negb (errorsIs err ErrAlreadyExist)
          then ret W (Returned (false, Some (LazyError err)))
          else create
      | None => create
      end
  end.

(** [DropCollection] drops a collection. *)
Definition DropCollection (schema collection : string)
  : M W (option Error) :=
  r <- schemaExists W querier schema ;;
  match r with
  | inl err => ret W (Some (LazyError (ErrDriver err)))
  | inr false => ret W (Some ErrSchemaNotExist)
  | inr true =>
      let table := formatCollectionName collection in
      r <- tables W querier schema ;;
      match r with
      | inl err => ret W (Some (LazyError (ErrDriver err)))
      | inr tbls =>
          if negb (contains tbls table)
          then ret W (Some ErrTableNotExist)
          else
            e <- quiet (removeTableFromSettings schema collection) ;;
            match e with
            | Some err =>
                if negb (errorsIs err ErrTableNotExist)
                then ret W (Some (LazyError err))
                else ret W (Some ErrTableNotExist)
            | None =>
                r <- Exec W querier (DropTableIfExistsCascade schema table) ;;
                match r with
                | Some err => ret W (Some (LazyError (ErrDriver err)))
                | None => ret W None
                end
            end
      end
  end.

End Catalog.

End PgdbMore.

(** Modelled from the spec: [CreateDatabase] and
    [removeTableFromSettings] on the in-memory backend.  "A schema is
    created on first write"; "a collection is dropped by removing the
    settings entry then dropping the table". *)
Module MemPgMore.
Import Types Pgdb MemPg.

Definition memCreateDatabase (db : string) (w : DB) : DB * option Error :=
  match findSchema (dbSchemas w) db with
  | Some _ => (w, Some ErrAlreadyExist)
  | None =>
      ({| dbSchemas :=
            dbSchemas w ++
            [(db, {| schTables := []; schSettings := emptySettings |})];
          dbFaults := dbFaults w |}, None)
  end.

Definition memRemoveTableFromSettings (db collection : string) (w : DB)
  : DB * option Error :=
  match findSchema (dbSchemas w) db with
  | None => (w, Some ErrSchemaNotExist)
  | Some sc =>
      match Get (schSettings sc) "collections" with
      | Some (VDocument cs) =>
          if Has cs collection
          then
            ({| dbSchemas :=
                  putSchema (dbSchemas w) db
                    {| schTables := schTables sc;
                       schSettings :=
                         Set_ (schSettings sc) "collections"
                              (VDocument
                                 (filter
                                    (fun kv =>
                                       negb (String.eqb (fst kv) collection))
                                    cs)) |};
                dbFaults := dbFaults w |}, None)
          else (w, Some (LazyError ErrTableNotExist))
      | _ => (w, Some (LazyErrorf "invalid settings document"))
      end
  end.

End MemPgMore.

Module PgdbMoreFacts.
Import Types Regexp RegexpFacts Pgdb PgdbFacts PgdbMore.

(** ** The two name patterns *)

Definition isLower (c : ascii) : bool :=
  let n := nat_of_ascii c in (97 <=? n) && (n <=? 122).

Lemma db_head_class (c : ascii) :
  inClass [("a", "z"); ("_", "_")]%char c = isLower c || isUnderscore c.
Proof. destruct c as [[] [] [] [] [] [] [] []]; reflexivity. Qed.

Lemma db_tail_class (c : ascii) :
  inClass [("a", "z"); ("0", "9"); ("_", "_")]%char c =
  isLower c || isDigit c || isUnderscore c.
Proof. destruct c as [[] [] [] [] [] [] [] []]; reflexivity. Qed.

Lemma length_list_ascii (s : string) :
  List.length (list_ascii_of_string s) = String.length s.
Proof. induction s as [|c s IH]; simpl; auto. Qed.

Lemma lower_is_letter (c : ascii) : isLower c = true -> isLetter c = true.
Proof. unfold isLower, isLetter. intros ->. reflexivity. Qed.

Lemma validateDatabaseNameRe_shape (s : string) :
  MatchString validateDatabaseNameRe s = true <->
  exists c rest,
    list_ascii_of_string s = c :: rest /\
    isLower c || isUnderscore c = true /\
    forallb (fun x => isLower x || isDigit x || isUnderscore x) rest = true /\
    List.length rest <= 62.
Proof.
  unfold validateDatabaseNameRe. rewrite anchored_name_match.
  destruct (list_ascii_of_string s) as [|c rest].
  - split; [discriminate|]. intros (c & rest & H & _). discriminate.
  - rewrite db_head_class, (forallb_eq _ _ rest db_tail_class).
    rewrite !andb_true_iff, Nat.leb_le. split.
    + intros [[Hc Hr] Hl]. exists c, rest. auto.
    + intros (c' & rest' & Heq & Hc & Hr & Hl).
      inversion Heq; subst. auto.
Qed.

(** X1. [validateDatabaseNameRe] accepts exactly the texts made of a
    lower-case letter or underscore followed by at most 62 lower-case
    letters, digits or underscores; an accepted name has between 1 and
    63 bytes. *)
Theorem validateDatabaseNameRe_accepts (s : string) :
  (MatchString validateDatabaseNameRe s = true <->
   exists c rest,
     list_ascii_of_string s = c :: rest /\
     isLower c || isUnderscore c = true /\
     forallb (fun x => isLower x || isDigit x || isUnderscore x) rest = true /\
     List.length rest <= 62) /\
  (MatchString validateDatabaseNameRe s = true ->
   1 <= String.length s <= 63).
Proof.
  split; [apply validateDatabaseNameRe_shape|].
  intros Hm. apply validateDatabaseNameRe_shape in Hm.
  destruct Hm as (c & rest & Heq & _ & _ & Hl).
  rewrite <- length_list_ascii, Heq. cbn. lia.
Qed.

(** X2. A name accepted by [validateCollectionNameRe] has between 1 and
    120 bytes, and each of them is an ASCII letter, a digit or an
    underscore. *)
Theorem validateCollectionNameRe_bytes (s : string) :
  MatchString validateCollectionNameRe s = true ->
  1 <= String.length s <= 120 /\
  Forall (fun x => isLetter x || isDigit x || isUnderscore x = true)
         (list_ascii_of_string s).
Proof.
  rewrite validateCollectionNameRe_shape. unfold nameShape.
  rewrite <- length_list_ascii.
  destruct (list_ascii_of_string s) as [|c rest]; [discriminate|].
  rewrite !andb_true_iff, Nat.leb_le. intros [[Hc Hr] Hl].
  split; [cbn; lia|].
  constructor.
  - apply orb_true_iff in Hc. destruct Hc as [Hc|Hc]; rewrite Hc;
      [reflexivity|]. now rewrite orb_true_r.
  - apply Forall_forall. intros x Hx.
    rewrite forallb_forall in Hr. now apply Hr.
Qed.

Lemma validateCollectionNameRe_bytes_witness :
  1 <= String.length "Orders_2022" <= 120 /\
  Forall (fun x => isLetter x || isDigit x || isUnderscore x = true)
         (list_ascii_of_string "Orders_2022").
Proof.
  exact (validateCollectionNameRe_bytes "Orders_2022" eq_refl).
Defined.

(** X3. Every name accepted as a database name is accepted by the
    collection-name pattern. *)
Theorem database_name_is_collection_name (s : string) :
  MatchString validateDatabaseNameRe s = true ->
  MatchString validateCollectionNameRe s = true.
Proof.
  intros Hm. apply validateDatabaseNameRe_shape in Hm.
  destruct Hm as (c & rest & Heq & Hc & Hr & Hl).
  rewrite validateCollectionNameRe_shape. unfold nameShape. rewrite Heq.
  rewrite !andb_true_iff, Nat.leb_le. repeat split.
  - apply orb_true_iff in Hc. destruct Hc as [Hc|Hc].
    + now rewrite (lower_is_letter c Hc).
    + rewrite Hc. apply orb_true_r.
  - rewrite forallb_forall in *. intros x Hx. specialize (Hr x Hx).
    apply orb_true_iff in Hr. destruct Hr as [Hr|Hr];
      [|rewrite Hr; apply orb_true_r].
    apply orb_true_iff in Hr. destruct Hr as [Hr|Hr].
    + now rewrite (lower_is_letter x Hr).
    + rewrite Hr. now rewrite orb_true_r.
  - lia.
Qed.

Lemma database_name_is_collection_name_witness :
  MatchString validateCollectionNameRe "acme_db1" = true.
Proof. exact (database_name_is_collection_name "acme_db1" eq_refl). Defined.

(** ** Sorting and membership *)

Lemma strLe_antisym (a b : string) : strLe a b -> strLe b a -> a = b.
Proof. apply String.leb_antisym. Qed.

(** Two sorted lists with the same elements are the same list. *)
Lemma sorted_perm_eq (l1 : list string) :
  forall l2, StronglySorted strLe l1 -> StronglySorted strLe l2 ->
             Permutation l1 l2 -> l1 = l2.
Proof.
  induction l1 as [|a t1 IH]; intros l2 H1 H2 Hp.
  - apply Permutation_nil in Hp. now subst.
  - destruct l2 as [|b t2].
    + apply Permutation_sym, Permutation_nil in Hp. discriminate.
    + inversion H1 as [|? ? Hs1 Ha]; subst.
      inversion H2 as [|? ? Hs2 Hb]; subst.
      assert (Hab : a = b).
      { assert (Hin1 : In a (b :: t2))
          by (eapply Permutation_in; [exact Hp|now left]).
        assert (Hin2 : In b (a :: t1))
          by (eapply Permutation_in;
              [apply Permutation_sym; exact Hp|now left]).
        destruct Hin1 as [->|Hin1]; [reflexivity|].
        destruct Hin2 as [->|Hin2]; [reflexivity|].
        rewrite Forall_forall in Ha, Hb.
        apply strLe_antisym; auto. }
      subst b. f_equal. apply IH; auto.
      eapply Permutation_cons_inv. exact Hp.
Qed.

Lemma slicesSort_permuted (l1 l2 : list string) :
  Permutation l1 l2 -> slicesSort l1 = slicesSort l2.
Proof.
  intros Hp. apply sorted_perm_eq; try apply slicesSort_sorted.
  rewrite !slicesSort_perm. exact Hp.
Qed.

Lemma contains_In (l : list string) (x : string) :
  contains l x = true <-> In x l.
Proof.
  unfold contains. rewrite existsb_exists. split.
  - intros (y & Hy & He). apply String.eqb_eq in He. now subst.
  - intros Hin. exists x. split; [exact Hin|apply String.eqb_refl].
Qed.

Lemma Has_In_Keys (d : Document) (k : string) :
  Has d k = true <-> In k (Keys d).
Proof.
  unfold Has. induction d as [|[k0 v0] rest IH]; cbn.
  - split; [discriminate|contradiction].
  - destruct (String.eqb_spec k0 k) as [->|Hne].
    + split; auto.
    + rewrite IH. split; [now right|]. intros [H|H]; [contradiction|exact H].
Qed.

Lemma contains_sorted_keys (d : Document) (k : string) :
  contains (slicesSort (Keys d)) k = Has d k.
Proof.
  apply eq_true_iff_eq. rewrite contains_In, Has_In_Keys. split.
  - apply Permutation_in, slicesSort_perm.
  - apply Permutation_in, Permutation_sym, slicesSort_perm.
Qed.

Section ReadFacts.

Variable W : Type.
Variable querier : Querier W.

(** X4. What [Collections] returns does not depend on the order in
    which the settings document stores the names: two backends whose
    [collections] documents hold the same keys, in any order, give the
    same list. *)
Theorem Collections_order_independent
        (db : string) (w w1 w2 w' w1' w2' : W)
        (settings settings' collections collections' : Document) :
  qSchemaExists querier db w = (w1, inr true) ->
  qGetSettingsTable querier db w1 = (w2, inr settings) ->
  Get settings "collections" = Some (VDocument collections) ->
  qSchemaExists querier db w' = (w1', inr true) ->
  qGetSettingsTable querier db w1' = (w2', inr settings') ->
  Get settings' "collections" = Some (VDocument collections') ->
  Permutation (Keys collections) (Keys collections') ->
  exists names,
    snd (Collections querier db (w, [])) = Returned (names, None) /\
    snd (Collections querier db (w', [])) = Returned (names, None).
Proof.
  intros Hs Hg Hc Hs' Hg' Hc' Hp.
  exists (slicesSort (Keys collections)).
  unfold Collections, bind, schemaExists, getSettingsTable, call, ret.
  cbn [fst snd]. rewrite Hs, Hs'. cbn [fst snd].
  rewrite Hg, Hg', Hc, Hc'. cbn [asDocument snd].
  split; [reflexivity|].
  now rewrite (slicesSort_permuted _ _ Hp).
Qed.

Lemma CollectionExists_existing
      (db collection : string) (w w1 w2 : W)
      (settings collections : Document) :
  qSchemaExists querier db w = (w1, inr true) ->
  qGetSettingsTable querier db w1 = (w2, inr settings) ->
  Get settings "collections" = Some (VDocument collections) ->
  CollectionExists W querier db collection (w, []) =
  ((w2, [EvSchemaExists db (inr true); EvGetSettings db (inr settings)]),
   Returned (Has collections collection, None)).
Proof.
  intros Hs Hg Hc.
  unfold CollectionExists, Collections, bind, schemaExists,
    getSettingsTable, call, ret.
  cbn [fst snd]. rewrite Hs. cbn [fst snd]. rewrite Hg, Hc.
  cbn [asDocument]. now rewrite contains_sorted_keys.
Qed.

(** X5. [CollectionExists] answers false, with no error, when the schema
    does not exist; on an existing schema it answers whether the
    [collections] document of the settings has the name as a key. *)
Theorem CollectionExists_answer (db collection : string) (w w1 : W) :
  (qSchemaExists querier db w = (w1, inr false) ->
   CollectionExists W querier db collection (w, []) =
   ((w1, [EvSchemaExists db (inr false)]), Returned (false, None))) /\
  (forall (w2 : W) (settings collections : Document),
      qSchemaExists querier db w = (w1, inr true) ->
      qGetSettingsTable querier db w1 = (w2, inr settings) ->
      Get settings "collections" = Some (VDocument collections) ->
      CollectionExists W querier db collection (w, []) =
      ((w2, [EvSchemaExists db (inr true); EvGetSettings db (inr settings)]),
       Returned (Has collections collection, None))).
Proof.
  split.
  - intros Hs.
    unfold CollectionExists, Collections, bind, schemaExists, call, ret.
    cbn [fst snd]. rewrite Hs. reflexivity.
  - intros w2 settings collections. apply CollectionExists_existing.
Qed.

End ReadFacts.

Lemma Collections_order_independent_witness :
  exists names,
    snd (Collections MemPg.memQuerier "acme" (MemPg.acmeThree, [])) =
    Returned (names, None) /\
    snd (Collections MemPg.memQuerier "acme"
           ({| MemPg.dbSchemas :=
                 [("acme",
                   {| MemPg.schTables := [];
                      MemPg.schSettings :=
                        [("collections",
                          VDocument [("accounts", VNull); ("users", VNull);
                                     ("Orders", VNull)])] |})];
               MemPg.dbFaults := [] |}, [])) =
    Returned (names, None).
Proof.
  eapply (Collections_order_independent MemPg.DB MemPg.memQuerier "acme");
    try reflexivity.
  cbn. apply Permutation_sym.
  apply perm_trans with (l' := ["users"; "accounts"; "Orders"]).
  - apply perm_swap.
  - apply perm_skip. apply perm_swap.
Defined.

Lemma CollectionExists_answer_witness :
  CollectionExists MemPg.DB MemPg.memQuerier "nope" "users"
    (MemPg.acmeThree, []) =
  ((MemPg.acmeThree, [EvSchemaExists "nope" (inr false)]),
   Returned (false, None)) /\
  snd (CollectionExists MemPg.DB MemPg.memQuerier "acme" "Orders"
         (MemPg.acmeThree, [])) = Returned (true, None).
Proof.
  split.
  - exact (proj1 (CollectionExists_answer MemPg.DB MemPg.memQuerier
                    "nope" "users" MemPg.acmeThree MemPg.acmeThree) eq_refl).
  - rewrite (proj2 (CollectionExists_answer MemPg.DB MemPg.memQuerier
                      "acme" "Orders" MemPg.acmeThree MemPg.acmeThree)
                   MemPg.acmeThree _ _ eq_refl eq_refl eq_refl).
    reflexivity.
Defined.

(** ** What [CreateCollection] writes *)

Lemma Set_absent (d : Document) (k : string) (v : Value) :
  Has d k = false -> Set_ d k v = d ++ [(k, v)].
Proof.
  unfold Has. induction d as [|[k0 v0] rest IH]; cbn; [reflexivity|].
  destruct (String.eqb k0 k); [discriminate|].
  intros H. now rewrite IH.
Qed.

Lemma Set_Keys_present (d : Document) (k : string) (v : Value) :
  Has d k = true -> Keys (Set_ d k v) = Keys d.
Proof.
  unfold Has. induction d as [|[k0 v0] rest IH]; cbn; [discriminate|].
  destruct (String.eqb k0 k); [reflexivity|].
  intros H. cbn. f_equal. now apply IH.
Qed.

Ltac backend_answer :=
  match goal with
  | |- context [qSchemaExists ?q ?d ?x] =>
      destruct (qSchemaExists q d x) as [? [?|[|]]] eqn:?
  | |- context [qTables ?q ?d ?x] =>
      destruct (qTables q d x) as [? [?|?]] eqn:?
  | |- context [qGetSettingsTable ?q ?d ?x] =>
      destruct (qGetSettingsTable q d x) as [? [?|?]] eqn:?
  | |- context [qUpdateSettingsTable ?q ?d ?s ?x] =>
      destruct (qUpdateSettingsTable q d s x) as [? [?|]] eqn:?
  | |- context [qExec ?q ?c ?x] =>
      destruct (qExec q c x) as [? [[?|?]|]] eqn:?
  | |- context [match ?x with _ => _ end] => destruct x eqn:?
  end; cbn [fst snd app asDocument failsWith errorsIs filter isWrite].

Ltac in_trace :=
  repeat match goal with
         | H : In _ (_ :: _) |- _ => destruct H as [H|H]
         | H : In _ [] |- _ => destruct H
         | H : False |- _ => destruct H
         | H : EvUpdateSettings _ _ _ = EvUpdateSettings _ _ _ |- _ =>
             inversion H; clear H; subst
         | H : EvExec _ _ = EvExec _ _ |- _ => inversion H; clear H; subst
         | H : asDocument ?v = Some ?d |- _ =>
             apply asDocument_Some in H; subst v
         end;
  try discriminate.

Section WriteFacts.

Variable W : Type.
Variable querier : Querier W.
Variable reservedPrefix : string.
Variable formatCollectionName : string -> string.

Let create := CreateCollection querier reservedPrefix formatCollectionName.

(** X6. The settings document that [CreateCollection] writes is the one
    it read with one change: the new name, absent before, is appended
    after the existing entries of [collections] and mapped to the
    computed table.  The other fields of the settings document, their
    order, and every existing entry of [collections] are kept. *)
Theorem CreateCollection_settings_written
        (db collection : string) (w : W)
        (db' : string) (written : Document) (r : option PgErr) :
  In (EvUpdateSettings db' written r)
     (snd (fst (create db collection (w, [])))) ->
  let table := formatCollectionName collection in
  exists settings collections,
    In (EvGetSettings db (inr settings))
       (snd (fst (create db collection (w, [])))) /\
    Get settings "collections" = Some (VDocument collections) /\
    Has collections collection = false /\
    db' = db /\
    let collections' := collections ++ [(collection, VString table)] in
    Get written "collections" = Some (VDocument collections') /\
    Keys written = Keys settings /\
    (forall k, k <> "collections" -> Get written k = Get settings k) /\
    Get collections' collection = Some (VString table) /\
    (forall k, k <> collection -> Get collections' k = Get collections k).
Proof.
  unfold create, CreateCollection.
  destruct (negb (MatchString validateCollectionNameRe collection)
            || String.prefix reservedPrefix collection);
    [cbn; contradiction|].
  unfold bind, schemaExists, tables, getSettingsTable, updateSettingsTable,
    Exec, call, ret. cbn [fst snd app].
  repeat backend_answer; intros Hin; in_trace.
  all: match goal with
       | Hg : Get ?s "collections" = Some (VDocument ?c),
         Hh : Has ?c ?k = false |- _ =>
           exists s, c; cbn zeta;
           rewrite (Set_absent c k _ Hh);
           pose proof (fun v => Set_absent c k v Hh) as Happ;
           assert (Hhas : Has s "collections" = true)
             by (unfold Has; now rewrite Hg)
       end.
  all: repeat split;
    [ cbn; auto
    | assumption
    | assumption
    | apply Get_Set_same
    | now apply Set_Keys_present
    | intros k Hk; now apply Get_Set_other
    | rewrite <- Happ; apply Get_Set_same
    | intros k Hk; rewrite <- Happ; now apply Get_Set_other ].
Qed.

(** X7. [CreateCollection] sends the backend at most two commands, in
    this order: the settings update, and, only if that succeeded,
    CREATE TABLE for the computed table.  When the update fails its
    error is returned; nothing is sent for a rejected name. *)
Theorem CreateCollection_write_discipline (db collection : string) (w : W) :
  let table := formatCollectionName collection in
  let out := create db collection (w, []) in
  let writes := filter isWrite (snd (fst out)) in
  writes = [] \/
  (nameRejected reservedPrefix collection = false /\
   exists written,
     (exists e, writes = [EvUpdateSettings db written (Some e)] /\
                snd out = Returned (Some (LazyError (ErrDriver e)))) \/
     (exists r, writes = [EvUpdateSettings db written None;
                          EvExec (CreateTableIfNotExists db table) r])).
Proof.
  cbv zeta. unfold create, CreateCollection, nameRejected.
  destruct (negb (MatchString validateCollectionNameRe collection)
            || String.prefix reservedPrefix collection);
    [left; reflexivity|].
  unfold bind, schemaExists, tables, getSettingsTable, updateSettingsTable,
    Exec, call, ret. cbn [fst snd app].
  repeat backend_answer; try (left; reflexivity).
  all: right; split; [reflexivity|]; eexists.
  all: try (left; eexists; split; reflexivity).
  all: right; eexists; reflexivity.
Qed.

End WriteFacts.

Lemma CreateCollection_settings_written_witness :
  exists settings collections,
    In (EvGetSettings "acme" (inr settings))
       (snd (fst (CreateCollection MemPg.memQuerier MemPg.reservedPrefix
                    MemPg.formatCollectionName "acme" "Orders"
                    (MemPg.acmeStale, [])))) /\
    Get settings "collections" = Some (VDocument collections) /\
    Has collections "Orders" = false /\
    "acme" = "acme" /\
    let collections' := collections ++ [("Orders", VString "Orders")] in
    Get [("collections",
          VDocument [("users", VString "users");
                     ("Orders", VString "Orders")])] "collections"
    = Some (VDocument collections') /\
    Keys [("collections",
           VDocument [("users", VString "users");
                      ("Orders", VString "Orders")])] = Keys settings /\
    (forall k, k <> "collections" ->
               Get [("collections",
                     VDocument [("users", VString "users");
                                ("Orders", VString "Orders")])] k
               = Get settings k) /\
    Get collections' "Orders" = Some (VString "Orders") /\
    (forall k, k <> "Orders" -> Get collections' k = Get collections k).
Proof.
  apply (CreateCollection_settings_written
           MemPg.DB MemPg.memQuerier MemPg.reservedPrefix
           MemPg.formatCollectionName "acme" "Orders" MemPg.acmeStale
           "acme" _ None).
  cbn. right. right. right. left. reflexivity.
Defined.

(** ** Reading back what [CreateCollection] wrote *)

Lemma Has_Set (d : Document) (k c : string) (v : Value) :
  Has (Set_ d k v) c = true <-> c = k \/ Has d c = true.
Proof.
  unfold Has. destruct (String.eqb_spec k c) as [->|Hne].
  - rewrite Get_Set_same. split; auto.
  - rewrite (Get_Set_other d k c v Hne). split; auto.
    intros [->|H]; [contradiction|exact H].
Qed.

Section RoundTrip.

Variable W : Type.
Variable querier : Querier W.
Variable reservedPrefix : string.
Variable formatCollectionName : string -> string.

Let create := CreateCollection querier reservedPrefix formatCollectionName.

Lemma CreateCollection_written_form
      (db collection : string) (w : W)
      (db' : string) (written : Document) (r : option PgErr) :
  In (EvUpdateSettings db' written r)
     (snd (fst (create db collection (w, [])))) ->
  exists settings collections,
    In (EvGetSettings db (inr settings))
       (snd (fst (create db collection (w, [])))) /\
    Get settings "collections" = Some (VDocument collections) /\
    Has collections collection = false /\
    written =
    Set_ settings "collections"
         (VDocument (Set_ collections collection
                          (VString (formatCollectionName collection)))).
Proof.
  unfold create, CreateCollection.
  destruct (negb (MatchString validateCollectionNameRe collection)
            || String.prefix reservedPrefix collection);
    [cbn; contradiction|].
  unfold bind, schemaExists, tables, getSettingsTable, updateSettingsTable,
    Exec, call, ret. cbn [fst snd app].
  repeat backend_answer; intros Hin; in_trace.
  all: do 2 eexists; repeat split; [cbn; eauto 6|eassumption|assumption].
Qed.

(** X18. Reading back what [CreateCollection] wrote: on a backend whose
    settings document is the one [CreateCollection] sent,
    [CollectionExists] answers true for the new name, and [Collections]
    lists the new name together with exactly the names the settings
    document held before. *)
Theorem CreateCollection_then_listed
        (db collection : string) (w : W) (written : Document)
        (r : option PgErr) (w' w1' w2' : W) :
  In (EvUpdateSettings db written r)
     (snd (fst (create db collection (w, [])))) ->
  qSchemaExists querier db w' = (w1', inr true) ->
  qGetSettingsTable querier db w1' = (w2', inr written) ->
  snd (CollectionExists W querier db collection (w', [])) =
  Returned (true, None) /\
  exists names settings collections,
    snd (Collections querier db (w', [])) = Returned (names, None) /\
    In (EvGetSettings db (inr settings))
       (snd (fst (create db collection (w, [])))) /\
    Get settings "collections" = Some (VDocument collections) /\
    forall c, In c names <-> c = collection \/ In c (Keys collections).
Proof.
  intros Hin Hs Hg.
  destruct (CreateCollection_written_form db collection w db written r Hin)
    as (settings & collections & Hread & Hc & Hnew & Hw).
  assert (Hcs : Get written "collections" =
                Some (VDocument
                        (Set_ collections collection
                              (VString (formatCollectionName collection)))))
    by (rewrite Hw; apply Get_Set_same).
  split.
  - rewrite (CollectionExists_existing W querier db collection w' w1' w2'
               written _ Hs Hg Hcs).
    cbn [snd]. do 2 f_equal. unfold Has. now rewrite Get_Set_same.
  - exists (slicesSort
              (Keys (Set_ collections collection
                          (VString (formatCollectionName collection))))),
      settings, collections.
    split; [|split; [exact Hread|split; [exact Hc|]]].
    + unfold Collections, bind, schemaExists, getSettingsTable, call, ret.
      cbn [fst snd]. rewrite Hs. cbn [fst snd]. rewrite Hg, Hcs.
      reflexivity.
    + intros c. rewrite <- contains_In, contains_sorted_keys, Has_Set.
      now rewrite Has_In_Keys.
Qed.

End RoundTrip.

Lemma CreateCollection_then_listed_witness :
  let out := CreateCollection MemPg.memQuerier MemPg.reservedPrefix
               MemPg.formatCollectionName "acme" "Orders"
               (MemPg.acmeStale, []) in
  snd (CollectionExists MemPg.DB MemPg.memQuerier "acme" "Orders"
         (fst (fst out), [])) = Returned (true, None) /\
  exists names settings collections,
    snd (Collections MemPg.memQuerier "acme" (fst (fst out), [])) =
    Returned (names, None) /\
    In (EvGetSettings "acme" (inr settings)) (snd (fst out)) /\
    Get settings "collections" = Some (VDocument collections) /\
    forall c, In c names <-> c = "Orders" \/ In c (Keys collections).
Proof.
  cbv zeta.
  eapply (CreateCollection_then_listed
            MemPg.DB MemPg.memQuerier MemPg.reservedPrefix
            MemPg.formatCollectionName "acme" "Orders" MemPg.acmeStale
            _ None).
  - cbn. right. right. right. left. reflexivity.
  - reflexivity.
  - reflexivity.
Defined.

(** ** [DropCollection] and [CreateCollectionIfNotExist] *)

Section DropFacts.

Variable W : Type.
Variable querier : Querier W.
Variable reservedPrefix : string.
Variable formatCollectionName : string -> string.
Variable CreateDatabase : string -> W -> W * option Error.
Variable removeTableFromSettings : string -> string -> W -> W * option Error.

Let drop :=
  DropCollection W querier formatCollectionName removeTableFromSettings.
Let create := CreateCollection querier reservedPrefix formatCollectionName.
Let ensure :=
  CreateCollectionIfNotExist W querier reservedPrefix formatCollectionName
                             CreateDatabase.

(** X8. The only command [DropCollection] ever sends is one DROP TABLE
    for the computed table, and it sends it only after the schema was
    found, the table was listed and [removeTableFromSettings] returned
    without error, on the backend as that removal left it.  Its result
    is then the result of the DROP. *)
Theorem DropCollection_drop_after_removal
        (schema collection : string) (w : W) (sql : SQL) (r : option PgErr) :
  In (EvExec sql r) (snd (fst (drop schema collection (w, [])))) ->
  let table := formatCollectionName collection in
  sql = DropTableIfExistsCascade schema table /\
  exists w1 w2 w3 ts,
    qSchemaExists querier schema w = (w1, inr true) /\
    qTables querier schema w1 = (w2, inr ts) /\
    contains ts table = true /\
    removeTableFromSettings schema collection w2 = (w3, None) /\
    qExec querier sql w3 = (fst (fst (drop schema collection (w, []))), r) /\
    snd (fst (drop schema collection (w, []))) =
    [EvSchemaExists schema (inr true); EvTables schema (inr ts);
     EvExec sql r] /\
    snd (drop schema collection (w, [])) =
    match r with
    | None => None
    | Some e => Some (LazyError (ErrDriver e))
    end.
Proof.
  unfold drop, DropCollection, bind, schemaExists, tables, Exec, call,
    quiet, ret. cbn [fst snd app].
  destruct (qSchemaExists querier schema w) as [w1 [e|[|]]] eqn:Hs;
    cbn [fst snd app]; try (intros Hin; cbn [fst snd] in Hin; in_trace; fail).
  destruct (qTables querier schema w1) as [w2 [e|ts]] eqn:Ht;
    cbn [fst snd app]; try (intros Hin; cbn [fst snd] in Hin; in_trace; fail).
  destruct (contains ts (formatCollectionName collection)) eqn:Hc;
    cbn [negb fst snd app]; try (intros Hin; cbn [fst snd] in Hin; in_trace; fail).
  destruct (removeTableFromSettings schema collection w2) as [w3 [e|]] eqn:Hr;
    cbn [fst snd app].
  { destruct (negb (errorsIs e ErrTableNotExist)); intros Hin; cbn [fst snd] in Hin; in_trace. }
  destruct (qExec querier
              (DropTableIfExistsCascade schema
                 (formatCollectionName collection)) w3)
    as [w4 [e|]] eqn:He; cbn [fst snd app]; intros Hin; cbn [fst snd] in Hin; in_trace.
  all: split; [reflexivity|]; exists w1, w2, w3, ts; auto 10.
Qed.

(** X9. [DropCollection] returns an error that is [ErrTableNotExist]
    exactly when the schema exists and either the computed table is not
    listed or [removeTableFromSettings] reported [ErrTableNotExist]
    (wrapped or not); the error returned is then the bare
    [ErrTableNotExist], and no DROP TABLE was sent. *)
Theorem DropCollection_table_not_exist
        (schema collection : string) (w : W) :
  let table := formatCollectionName collection in
  let out := drop schema collection (w, []) in
  ((exists e, snd out = Some e /\ errorsIs e ErrTableNotExist = true) <->
   exists w1 w2 ts,
     qSchemaExists querier schema w = (w1, inr true) /\
     qTables querier schema w1 = (w2, inr ts) /\
     (contains ts table = false \/
      exists w3 err,
        removeTableFromSettings schema collection w2 = (w3, Some err) /\
        errorsIs err ErrTableNotExist = true)) /\
  ((exists e, snd out = Some e /\ errorsIs e ErrTableNotExist = true) ->
   snd out = Some ErrTableNotExist /\
   filter isWrite (snd (fst out)) = []).
Proof.
  cbv zeta.
  unfold drop, DropCollection, bind, schemaExists, tables, Exec, call,
    quiet, ret. cbn [fst snd app].
  destruct (qSchemaExists querier schema w) as [w1 [e|[|]]] eqn:Hs;
    cbn [fst snd app].
  2: destruct (qTables querier schema w1) as [w2 [e|ts]] eqn:Ht;
    cbn [fst snd app].
  3: destruct (contains ts (formatCollectionName collection)) eqn:Hc;
    cbn [negb fst snd app].
  3: destruct (removeTableFromSettings schema collection w2)
    as [w3 [e|]] eqn:Hr; cbn [fst snd app].
  3: destruct (errorsIs e ErrTableNotExist) eqn:Hi; cbn [negb fst snd].
  5: destruct (qExec querier
                 (DropTableIfExistsCascade schema
                    (formatCollectionName collection)) w3)
    as [w4 [e|]]; cbn [fst snd app].
  all: split; [split|]; intros H.
  all: first
         [ solve [ exfalso;
                   repeat match goal with
                          | H : exists _, _ |- _ => destruct H
                          | H : _ /\ _ |- _ => destruct H
                          | H : _ \/ _ |- _ => destruct H
                          | H : (_, _) = (_, _) |- _ =>
                              inversion H; clear H; subst
                          | H : Some _ = Some _ |- _ =>
                              inversion H; clear H; subst
                          | H : ?x = _, H' : ?x = _ |- _ => rewrite H in H'
                          end;
                   cbn in *; congruence ]
         | solve [ eexists; split; reflexivity ]
         | solve [ split; reflexivity ]
         | idtac ].
  - exists w1, w2, ts. repeat split; auto. right. exists w3, e. auto.
  - exists w1, w2, ts. repeat split; auto.
Qed.

(** X10. [CreateCollectionIfNotExist] never returns an error that is
    [ErrAlreadyExist], whatever [CreateDatabase] and the backend answer;
    it reports an error only with [false]; and it reports [true] only
    when its call of [CreateCollection] returned [nil]. *)
Theorem CreateCollectionIfNotExist_result
        (db collection : string) (st : St W) :
  match snd (ensure db collection st) with
  | Returned (created, err) =>
      (forall e, err = Some e ->
                 errorsIs e ErrAlreadyExist = false /\ created = false) /\
      (created = true ->
       err = None /\
       exists st1,
         create db collection st1 =
         (fst (ensure db collection st), Returned None))
  | Panicked => True
  end.
Proof.
  unfold ensure, CreateCollectionIfNotExist, CollectionExists, Collections,
    bind, schemaExists, getSettingsTable, call, quiet, ret.
  fold create.
  cbn [fst snd].
  repeat (match goal with
          | |- context [qSchemaExists ?q ?d ?x] =>
              destruct (qSchemaExists q d x) as [? [?|[|]]]
          | |- context [qGetSettingsTable ?q ?d ?x] =>
              destruct (qGetSettingsTable q d x) as [? [?|?]]
          | |- context [CreateDatabase ?d ?x] =>
              destruct (CreateDatabase d x) as [? [?|]]
          | |- context [create ?d ?c ?x] =>
              destruct (create d c x) as [? [[?|]|]] eqn:?
          | |- context [errorsIs ?e ?t] =>
              destruct (errorsIs e t) eqn:?
          | |- context [Get ?d ?k] => destruct (Get d k)
          | |- context [asDocument ?v] => destruct (asDocument v)
          | |- context [contains ?l ?c] => destruct (contains l c)
          end; cbn [fst snd errorsIs negb]).
  all: try exact I.
  all: split; [intros x Hx; inversion Hx; subst; cbn [errorsIs]; auto
              |intros Hcr; try discriminate].
  all: split; [reflexivity|eexists; eassumption].
Qed.

(** X11. When the settings document already has the name,
    [CreateCollectionIfNotExist] answers [false] with no error after the
    two reads of [Collections]: [CreateDatabase] and [CreateCollection]
    are not called and nothing is sent. *)
Theorem CreateCollectionIfNotExist_known_name
        (db collection : string) (w w1 w2 : W)
        (settings collections : Document) :
  qSchemaExists querier db w = (w1, inr true) ->
  qGetSettingsTable querier db w1 = (w2, inr settings) ->
  Get settings "collections" = Some (VDocument collections) ->
  Has collections collection = true ->
  ensure db collection (w, []) =
  ((w2, [EvSchemaExists db (inr true); EvGetSettings db (inr settings)]),
   Returned (false, None)).
Proof.
  intros Hs Hg Hc Hh.
  unfold ensure, CreateCollectionIfNotExist, bind.
  rewrite (CollectionExists_existing W querier db collection w w1 w2
             settings collections Hs Hg Hc).
  rewrite Hh. reflexivity.
Qed.

End DropFacts.

Lemma DropCollection_drop_after_removal_witness :
  let out := DropCollection MemPg.DB MemPg.memQuerier
               MemPg.formatCollectionName
               MemPgMore.memRemoveTableFromSettings "acme" "users"
               (MemPg.acmeThree, []) in
  snd out = None /\
  MemPg.dbSchemas (fst (fst out)) =
  [("acme",
    {| MemPg.schTables := ["Orders"; "accounts"];
       MemPg.schSettings :=
         [("collections",
           VDocument [("Orders", VString "Orders");
                      ("accounts", VString "accounts")])] |})] /\
  DropTableIfExistsCascade "acme" "users" =
  DropTableIfExistsCascade "acme" (MemPg.formatCollectionName "users") /\
  exists w1 w2 w3 ts,
    qSchemaExists MemPg.memQuerier "acme" MemPg.acmeThree = (w1, inr true) /\
    qTables MemPg.memQuerier "acme" w1 = (w2, inr ts) /\
    contains ts (MemPg.formatCollectionName "users") = true /\
    MemPgMore.memRemoveTableFromSettings "acme" "users" w2 = (w3, None) /\
    qExec MemPg.memQuerier (DropTableIfExistsCascade "acme" "users") w3 =
    (fst (fst out), None) /\
    snd (fst out) =
    [EvSchemaExists "acme" (inr true); EvTables "acme" (inr ts);
     EvExec (DropTableIfExistsCascade "acme" "users") None] /\
    snd out = None.
Proof.
  cbv zeta. split; [reflexivity|]. split; [reflexivity|].
  apply (DropCollection_drop_after_removal
           MemPg.DB MemPg.memQuerier MemPg.formatCollectionName
           MemPgMore.memRemoveTableFromSettings "acme" "users"
           MemPg.acmeThree (DropTableIfExistsCascade "acme" "users") None).
  cbn. right. right. left. reflexivity.
Defined.

(** A catalog entry without a table: the collection is reported as not
    created, and stays without table. *)
Lemma CreateCollectionIfNotExist_known_name_witness :
  CreateCollectionIfNotExist MemPg.DB MemPg.memQuerier MemPg.reservedPrefix
    MemPg.formatCollectionName MemPgMore.memCreateDatabase "acme" "users"
    (MemPg.acmeStale, []) =
  ((MemPg.acmeStale,
    [EvSchemaExists "acme" (inr true);
     EvGetSettings "acme"
       (inr [("collections", VDocument [("users", VString "users")])])]),
   Returned (false, None)).
Proof.
  exact (CreateCollectionIfNotExist_known_name
           MemPg.DB MemPg.memQuerier MemPg.reservedPrefix
           MemPg.formatCollectionName MemPgMore.memCreateDatabase
           "acme" "users" MemPg.acmeStale MemPg.acmeStale MemPg.acmeStale
           _ [("users", VString "users")] eq_refl eq_refl eq_refl eq_refl).
Defined.

(** On a server without the schema, the schema, the catalog entry and
    the table are all made. *)
Example ensure_fresh :
  let out := CreateCollectionIfNotExist MemPg.DB MemPg.memQuerier
               MemPg.reservedPrefix MemPg.formatCollectionName
               MemPgMore.memCreateDatabase "shop" "items"
               (MemPg.acme, []) in
  snd out = Returned (true, None) /\
  MemPg.findSchema (MemPg.dbSchemas (fst (fst out))) "shop" =
  Some {| MemPg.schTables := ["items"];
          MemPg.schSettings :=
            [("collections", VDocument [("items", VString "items")])] |}.
Proof. split; reflexivity. Qed.

End PgdbMoreFacts.

(* ===================================================================== *)
(** * More on the delete handler *)
(* ===================================================================== *)

Module TigrisMoreFacts.
Import Types Common Tigris TigrisFacts.

Local Open Scope Z_scope.

Section MarshalFacts.

Variable tjsonMarshal : Value -> option RawMessage.
Variable jsonMarshalable : Filter -> bool.

Lemma collectIds_length (docs : list Document) :
  forall ids, collectIds tjsonMarshal docs = Some ids ->
              List.length ids = List.length docs.
Proof.
  induction docs as [|d ds IH]; intros ids H; cbn in H.
  - now inversion H.
  - destruct (Get d "_id") as [v|]; [|discriminate].
    destruct (tjsonMarshal v); [|discriminate].
    destruct (collectIds tjsonMarshal ds) as [ids'|]; [|discriminate].
    inversion H; subst. cbn. f_equal. now apply IH.
Qed.

(** A document whose [_id] is missing or cannot be marshalled. *)
Definition badId (doc : Document) : Prop :=
  Get doc "_id" = None \/
  exists v, Get doc "_id" = Some v /\ tjsonMarshal v = None.

Lemma collectIds_None (docs : list Document) :
  collectIds tjsonMarshal docs = None <->
  exists doc, In doc docs /\ badId doc.
Proof.
  unfold badId. induction docs as [|d ds IH]; cbn.
  - split; [discriminate|]. intros (doc & [] & _).
  - destruct (Get d "_id") as [v|] eqn:Hd.
    + destruct (tjsonMarshal v) as [raw|] eqn:Hv.
      * destruct (collectIds tjsonMarshal ds) as [ids|].
        -- split; [discriminate|].
           intros (doc & [<-|Hin] & Hbad).
           ++ destruct Hbad as [Hn|(v' & Hg & Hm)]; congruence.
           ++ destruct IH as [_ IH]. discriminate IH. now exists doc.
        -- split; [|reflexivity]. intros _.
           destruct IH as [IH _]. destruct (IH eq_refl) as (doc & Hin & Hn).
           exists doc. auto.
      * split; [|reflexivity]. intros _. exists d. split; [now left|].
        right. now exists v.
    + split; [|reflexivity]. intros _. exists d. auto.
Qed.

Lemma filterOf_not_all (ids : list RawMessage) :
  ids <> [] -> filterOf ids <> FilterAll.
Proof. destruct ids as [|a [|b rest]]; cbn; congruence. Qed.

Lemma buildFilter_nil : buildFilter jsonMarshalable [] = Some FilterAll.
Proof. reflexivity. Qed.

Lemma buildFilter_cons (ids : list RawMessage) :
  ids <> [] ->
  buildFilter jsonMarshalable ids =
  if jsonMarshalable (filterOf ids) then Some (filterOf ids) else None.
Proof.
  intros Hne. unfold buildFilter.
  destruct ids as [|a [|b rest]]; [congruence|reflexivity|reflexivity].
Qed.

Lemma buildFilter_Some (ids : list RawMessage) (f : Filter) :
  buildFilter jsonMarshalable ids = Some f -> f = filterOf ids.
Proof.
  unfold buildFilter. destruct (filterOf ids); [congruence|..];
    destruct (jsonMarshalable _); congruence.
Qed.

End MarshalFacts.

Section MoreHandlerFacts.

Variable W : Type.
Variable DeleteResponse : Type.
Variable Unimplemented : Document -> list string -> option Error.
Variable GetWholeNumberParam : Value -> Out Z.
Variable AliasFromType : Value -> string.
Variable QueryDocuments : FetchParam -> W -> Out (list Document).
Variable FilterDocument : Document -> option Document -> Out bool.
Variable tjsonMarshal : Value -> option RawMessage.
Variable jsonMarshalable : Filter -> bool.
Variable codeNumber : ErrorCode -> Z.

Definition Driver : Type :=
  string -> string -> Filter -> W -> W * (string + DeleteResponse).

Let select :=
  selectDocs W Unimplemented GetWholeNumberParam AliasFromType
             QueryDocuments FilterDocument.
Let process (driver : Driver) :=
  processQuery W DeleteResponse Unimplemented GetWholeNumberParam
               AliasFromType QueryDocuments FilterDocument tjsonMarshal jsonMarshalable driver.
Let all (driver : Driver) :=
  processAll W DeleteResponse Unimplemented GetWholeNumberParam
             AliasFromType QueryDocuments FilterDocument tjsonMarshal jsonMarshalable driver.
Let run (driver : Driver) :=
  runDeletes W DeleteResponse Unimplemented GetWholeNumberParam
             AliasFromType QueryDocuments FilterDocument tjsonMarshal jsonMarshalable driver.
Let handle (driver : Driver) :=
  MsgDelete W DeleteResponse Unimplemented GetWholeNumberParam
            AliasFromType QueryDocuments FilterDocument tjsonMarshal jsonMarshalable driver codeNumber.

(** X12. [delete] panics exactly when one of the documents has no
    [_id], or an [_id] that [tjson.Marshal] refuses, or when
    [json.Marshal] refuses the filter built from the ids; it then has
    not called the driver.  Otherwise it calls the driver once, with a
    filter that is never the match-all filter when there is a document,
    and returns the driver's failure or the number of documents. *)
Theorem delete_outcome (driver : Driver) (fp : FetchParam)
        (docs : list Document) (w : W) :
  let out := delete W DeleteResponse tjsonMarshal jsonMarshalable driver
                    fp docs w in
  (snd out = Panic <->
   (exists doc, In doc docs /\ badId tjsonMarshal doc) \/
   (exists ids, collectIds tjsonMarshal docs = Some ids /\ docs <> [] /\
                jsonMarshalable (filterOf ids) = false)) /\
  (snd out = Panic -> fst out = w) /\
  (forall ids,
      collectIds tjsonMarshal docs = Some ids ->
      (docs <> [] -> filterOf ids <> FilterAll) /\
      (docs = [] \/ jsonMarshalable (filterOf ids) = true ->
       fst out = fst (driver (DB fp) (Collection fp) (filterOf ids) w) /\
       snd out =
       match snd (driver (DB fp) (Collection fp) (filterOf ids) w) with
       | inl msg => Err (OtherError msg)
       | inr _ => Ok (Z.of_nat (List.length docs))
       end)).
Proof.
  cbv zeta. unfold delete.
  destruct (collectIds tjsonMarshal docs) as [ids|] eqn:Hids.
  - assert (Hlen := collectIds_length tjsonMarshal docs ids Hids).
    assert (Hnil : docs = [] <-> ids = []).
    { destruct ids; destruct docs; cbn in Hlen; split; congruence. }
    assert (Hnot : ~ exists doc, In doc docs /\ badId tjsonMarshal doc).
    { intros Hex. apply collectIds_None in Hex. congruence. }
    assert (Hall : docs <> [] -> filterOf ids <> FilterAll).
    { intros Hne. apply filterOf_not_all. intros ->.
      apply Hne. now apply Hnil. }
    destruct ids as [|a rest] eqn:Hi.
    + assert (Hd : docs = []) by now apply Hnil.
      rewrite buildFilter_nil. cbn [filterOf].
      destruct (driver (DB fp) (Collection fp) FilterAll w)
        as [w' [msg|resp]] eqn:Hdrv; cbn [fst snd].
      all: split; [split|split].
      all: try discriminate.
      all: try (intros [Hex|(ids' & _ & Hne & _)]; [now apply Hnot in Hex
                                                    |congruence]).
      all: intros ids' Heq; inversion Heq; subst ids'; cbn [filterOf];
        rewrite Hdrv; cbn [fst snd]; rewrite Hd; auto.
    + rewrite <- Hi in *.
      assert (Hne : ids <> []) by (rewrite Hi; discriminate).
      assert (Hdne : docs <> []) by (intros Hd; apply Hne; now apply Hnil).
      rewrite (buildFilter_cons jsonMarshalable ids Hne).
      destruct (jsonMarshalable (filterOf ids)) eqn:Hj.
      * destruct (driver (DB fp) (Collection fp) (filterOf ids) w)
          as [w' [msg|resp]] eqn:Hdrv; cbn [fst snd].
        all: split; [split|split].
        all: try discriminate.
        all: try (intros [Hex|(ids' & Heq & _ & Hf)];
                  [now apply Hnot in Hex
                  |inversion Heq; subst ids'; congruence]).
        all: intros ids' Heq; inversion Heq; subst ids';
          rewrite Hdrv; cbn [fst snd]; rewrite ?Hlen; auto.
      * cbn [fst snd]. split; [split|split]; auto.
        -- intros _. right. exists ids. auto.
        -- intros ids' Heq. inversion Heq; subst ids'.
           split; [exact Hall|]. intros [Hd|Ht]; congruence.
  - cbn [fst snd].
    split; [split; [intros _|reflexivity]|split; [reflexivity|discriminate]].
    left. now apply collectIds_None.
Qed.

(** Two drivers that differ only on the match-all filter. *)
Definition agreeBut (driver1 driver2 : Driver) : Prop :=
  forall db collection f w,
    f <> FilterAll -> driver1 db collection f w = driver2 db collection f w.

Lemma processQuery_agree (driver1 driver2 : Driver) :
  agreeBut driver1 driver2 ->
  forall document deletes i w n,
    process driver1 document deletes i w n =
    process driver2 document deletes i w n.
Proof.
  intros Hag document deletes i w n. unfold process, processQuery.
  destruct (selectDocs _ _ _ _ _ _ _ _ _ _) as [[fp [|d ds]]| |];
    try reflexivity.
  unfold delete.
  destruct (collectIds tjsonMarshal (d :: ds)) as [ids|] eqn:Hids;
    [|reflexivity].
  destruct (buildFilter jsonMarshalable ids) as [f|] eqn:Hb; [|reflexivity].
  rewrite (Hag (DB fp) (Collection fp) f w); [reflexivity|].
  apply buildFilter_Some in Hb. subst f.
  apply filterOf_not_all. apply collectIds_length in Hids.
  destruct ids; cbn in Hids; congruence.
Qed.

Lemma processAll_agree (driver1 driver2 : Driver) :
  agreeBut driver1 driver2 ->
  forall document deletes ordered indices st,
    all driver1 document deletes ordered indices st =
    all driver2 document deletes ordered indices st.
Proof.
  intros Hag document deletes ordered.
  induction indices as [|i rest IH]; intros st; [reflexivity|].
  unfold all in *. cbv beta in *. cbn [processAll].
  pose proof (processQuery_agree _ _ Hag document deletes i (world st)
                                 (deleted st)) as Hp.
  unfold process in Hp. cbv beta in Hp. rewrite Hp.
  destruct (processQuery W DeleteResponse Unimplemented GetWholeNumberParam
              AliasFromType QueryDocuments FilterDocument tjsonMarshal jsonMarshalable driver2 document
              deletes i (world st) (deleted st)) as [[w' n'] [[]|err|]];
    try reflexivity.
  - apply IH.
  - destruct ordered; [reflexivity|apply IH].
Qed.

(** X13. [MsgDelete] never sends the driver the match-all filter [{}]:
    its outcome is the same with any two drivers that differ only in
    what they do on that filter. *)
Theorem MsgDelete_never_deletes_all (driver1 driver2 : Driver) :
  agreeBut driver1 driver2 ->
  forall (document : Document) (w : W),
    handle driver1 document w = handle driver2 document w.
Proof.
  intros Hag document w. unfold handle, MsgDelete, runDeletes.
  destruct (Unimplemented document ["let"%string]); [reflexivity|].
  destruct (GetOptionalParam _ document "deletes" None) as [deletes| |];
    try reflexivity.
  destruct (GetOptionalParam asBool document "ordered" true)
    as [ordered| |]; try reflexivity.
  cbn [obind].
  pose proof (processAll_agree _ _ Hag document deletes ordered
                (seq 0 (arrayLen deletes))
                {| world := w; deleted := 0; delErrors := [];
                   attempts := [] |}) as Ha.
  unfold all in Ha. cbv beta in Ha. now rewrite Ha.
Qed.

End MoreHandlerFacts.

(** ** The loop of [MsgDelete] *)

Lemma map_fst_succeeded (l : list nat) : map fst (map succeeded l) = l.
Proof. induction l as [|i l IH]; cbn; congruence. Qed.

Lemma collected_failed (i : nat) (err : Error)
      (tr : list (nat * option Error)) :
  exists e,
    collected ((i, Some err) :: tr) = e :: collected tr /\
    weIndex e = toInt32 (Z.of_nat i).
Proof.
  destruct err; eexists; split; reflexivity.
Qed.

(** The indices that a record of attempts on statements [a .. a+m-1]
    leaves in [delErrors]. *)
Lemma collected_indices (tr : list (nat * option Error)) :
  forall (a m : nat),
    map fst tr = seq a m ->
    Z.of_nat (a + m) <= 2 ^ 31 ->
    StronglySorted Z.lt (map weIndex (collected tr)) /\
    Forall (fun i => Z.of_nat a <= i < Z.of_nat (a + m))
           (map weIndex (collected tr)) /\
    (List.length (collected tr) <= m)%nat.
Proof.
  induction tr as [|[i r] tr IH]; intros a m Hseq Hbound.
  - cbn. repeat split; [constructor|constructor|lia].
  - destruct m as [|m]; [discriminate|]. cbn in Hseq.
    inversion Hseq as [[Hi Hrest]]. subst i.
    destruct (IH (S a) m Hrest ltac:(lia)) as (Hs & Hf & Hl).
    assert (Hf' : Forall (fun i => Z.of_nat a < i < Z.of_nat (a + S m))
                         (map weIndex (collected tr))).
    { eapply Forall_impl; [|exact Hf]. cbn beta. intros x Hx. lia. }
    destruct r as [err|].
    + destruct (collected_failed a err tr) as (e & -> & Hidx).
      rewrite toInt32_small in Hidx by lia.
      cbn [map List.length]. rewrite Hidx. repeat split.
      * constructor; [exact Hs|].
        eapply Forall_impl; [|exact Hf']. cbn beta. intros x Hx. lia.
      * constructor; [lia|].
        eapply Forall_impl; [|exact Hf']. cbn beta. intros x Hx. lia.
      * lia.
    + change (collected ((a, None) :: tr)) with (collected tr).
      repeat split.
      * exact Hs.
      * eapply Forall_impl; [|exact Hf']. cbn beta. intros x Hx. lia.
      * lia.
Qed.

Section LoopFacts.

Variable W : Type.
Variable DeleteResponse : Type.
Variable Unimplemented : Document -> list string -> option Error.
Variable GetWholeNumberParam : Value -> Out Z.
Variable AliasFromType : Value -> string.
Variable QueryDocuments : FetchParam -> W -> Out (list Document).
Variable FilterDocument : Document -> option Document -> Out bool.
Variable tjsonMarshal : Value -> option RawMessage.
Variable jsonMarshalable : Filter -> bool.
Variable driverDelete :
  string -> string -> Filter -> W -> W * (string + DeleteResponse).
Variable codeNumber : ErrorCode -> Z.

Let select :=
  selectDocs W Unimplemented GetWholeNumberParam AliasFromType
             QueryDocuments FilterDocument.
Let process :=
  processQuery W DeleteResponse Unimplemented GetWholeNumberParam
               AliasFromType QueryDocuments FilterDocument tjsonMarshal jsonMarshalable driverDelete.
Let all :=
  processAll W DeleteResponse Unimplemented GetWholeNumberParam
             AliasFromType QueryDocuments FilterDocument tjsonMarshal jsonMarshalable driverDelete.
Let run :=
  runDeletes W DeleteResponse Unimplemented GetWholeNumberParam
             AliasFromType QueryDocuments FilterDocument tjsonMarshal jsonMarshalable driverDelete.
Let handle :=
  MsgDelete W DeleteResponse Unimplemented GetWholeNumberParam
            AliasFromType QueryDocuments FilterDocument tjsonMarshal jsonMarshalable driverDelete
            codeNumber.

(** X14. A delete command without [let], whose [deletes] field is
    absent or an empty array and whose [ordered] field is absent or a
    boolean, leaves the backend as it is and replies [{ok: 1.0, n: 0}]. *)
Theorem MsgDelete_no_statements (document : Document) (w : W) :
  Unimplemented document ["let"%string] = None ->
  Get document "deletes" = None \/ Get document "deletes" = Some (VArray []) ->
  Get document "ordered" = None \/
  (exists b, Get document "ordered" = Some (VBool b)) ->
  handle document w =
  Ok (w, [("ok", VDouble 1%float); ("n", VInt32 0)]%string).
Proof.
  intros Hlet Hdel Hord.
  unfold handle, MsgDelete, runDeletes, GetOptionalParam. rewrite Hlet.
  destruct Hord as [Ho|[b Ho]]; rewrite Ho;
    destruct Hdel as [Hd|Hd]; rewrite Hd; reflexivity.
Qed.

Lemma processAll_nothing_selected (document : Document)
      (deletes : option Array) (ordered : bool) (w : W) :
  (forall i fp docs, select document deletes i w = Ok (fp, docs) ->
                     docs = []) ->
  forall indices st st',
    all document deletes ordered indices st = Ok st' ->
    world st = w ->
    world st' = w /\ deleted st' = deleted st.
Proof.
  intros Hnone. induction indices as [|i rest IH]; intros st st' Hrun Hw.
  - inversion Hrun; subst. auto.
  - unfold all in *. cbn [processAll] in Hrun.
    unfold processQuery in Hrun. fold select in Hrun. rewrite Hw in Hrun.
    destruct (select document deletes i w) as [[fp docs]|err|] eqn:Hsel;
      [|..|discriminate].
    + rewrite (Hnone i fp docs Hsel) in Hrun.
      apply IH in Hrun; [|reflexivity]. exact Hrun.
    + destruct ordered.
      * inversion Hrun; subst. auto.
      * apply IH in Hrun; [|reflexivity]. exact Hrun.
Qed.

(** X15. When none of the statements selects a document on the backend
    as the command finds it, the command leaves the backend as it is
    and counts nothing, whether its statements fail or not. *)
Theorem MsgDelete_nothing_selected
        (document : Document) (w : W) (st : Loop W) :
  run document w = Ok st ->
  (forall deletes i fp docs,
      GetOptionalParam (fun v => option_map Some (asArray v))
                       document "deletes" None = Ok deletes ->
      select document deletes i w = Ok (fp, docs) -> docs = []) ->
  world st = w /\ deleted st = 0 /\
  Get (replyDoc W codeNumber st) "n" = Some (VInt32 0).
Proof.
  unfold run, runDeletes. intros Hrun Hnone.
  destruct (Unimplemented document ["let"%string]); [discriminate|].
  destruct (GetOptionalParam _ document "deletes" None) as [deletes| |];
    cbn [obind] in Hrun; try discriminate.
  destruct (GetOptionalParam asBool document "ordered" true)
    as [ordered| |]; cbn [obind] in Hrun; try discriminate.
  apply (processAll_nothing_selected document deletes ordered w
           (fun i fp docs => Hnone deletes i fp docs eq_refl)) in Hrun;
    [|reflexivity].
  destruct Hrun as [Hw Hd]. cbn in Hd.
  repeat split; auto. unfold replyDoc. rewrite Hd. apply Get_Set_same.
Qed.

(** X16. In the [delErrors] of a finished loop the indices are strictly
    increasing and each is the position of a statement of the array;
    there is at most one entry per statement.  (The array has at most
    [2^31] statements, so that positions fit an [int32].) *)
Theorem MsgDelete_error_indices
        (document : Document) (w : W) (st : Loop W)
        (deletes : option Array) :
  run document w = Ok st ->
  GetOptionalParam (fun v => option_map Some (asArray v))
                   document "deletes" None = Ok deletes ->
  Z.of_nat (arrayLen deletes) <= 2 ^ 31 ->
  StronglySorted Z.lt (map weIndex (delErrors st)) /\
  Forall (fun i => 0 <= i < Z.of_nat (arrayLen deletes))
         (map weIndex (delErrors st)) /\
  (List.length (delErrors st) <= arrayLen deletes)%nat.
Proof.
  unfold run, runDeletes. intros Hrun Hd Hbound.
  destruct (Unimplemented document ["let"%string]); [discriminate|].
  rewrite Hd in Hrun. cbn [obind] in Hrun.
  destruct (GetOptionalParam asBool document "ordered" true)
    as [ordered| |]; cbn [obind] in Hrun; try discriminate.
  apply processAll_trace in Hrun; [|cbn; lia].
  cbn [attempts delErrors app] in Hrun.
  destruct Hrun as (tr & _ & He & _ & Hshape). rewrite He.
  assert (Hpre : exists m, (m <= arrayLen deletes)%nat /\
                           map fst tr = seq 0 m).
  { destruct ordered.
    - destruct Hshape as [->|(pre & k & err & post & Hsplit & ->)].
      + exists (arrayLen deletes). split; [lia|apply map_fst_succeeded].
      + apply seq_split_inv in Hsplit. destruct Hsplit as (Hp & Hk & Hlt).
        exists (S (List.length pre)). split; [lia|].
        rewrite map_app, map_fst_succeeded. cbn [map fst].
        rewrite seq_S. cbn in Hk. now rewrite <- Hp, Hk.
    - exists (arrayLen deletes). split; [lia|exact Hshape]. }
  destruct Hpre as (m & Hm & Hseq).
  destruct (collected_indices tr 0 m Hseq ltac:(cbn; lia)) as (Hs & Hf & Hl).
  repeat split; [exact Hs| |lia].
  eapply Forall_impl; [|exact Hf]. cbn beta. intros x Hx. cbn in Hx. lia.
Qed.

(** The statement at position [i] of the array. *)
Definition stmt (deletes : option Array) (i : nat) : option Value :=
  nth_error (match deletes with Some a => a | None => [] end) i.

Lemma processQuery_stmt (document : Document) (deletes deletes' : option Array)
      (i : nat) (w : W) (n : Z) :
  stmt deletes' i = stmt deletes i ->
  process document deletes' i w n = process document deletes i w n.
Proof.
  unfold stmt. intros H.
  unfold process, processQuery, selectDocs. now rewrite H.
Qed.

(** An ordered run either went through all its indices without an
    error, or stopped at one: then it read the array at the indices up
    to that one only. *)
Lemma ordered_run_shape (document : Document) (deletes : option Array) :
  forall (indices : list nat) (st0 st : Loop W),
    all document deletes true indices st0 = Ok st ->
    attempts st = attempts st0 ++ map succeeded indices \/
    exists pre k err post,
      indices = pre ++ k :: post /\
      attempts st = attempts st0 ++ map succeeded pre ++ [(k, Some err)] /\
      forall deletes' post',
        (forall i, In i (pre ++ [k]) -> stmt deletes' i = stmt deletes i) ->
        all document deletes' true (pre ++ k :: post') st0 = Ok st.
Proof.
  induction indices as [|i rest IH]; intros st0 st Hrun.
  - inversion Hrun; subst. left. cbn. now rewrite app_nil_r.
  - unfold all in *. cbn [processAll] in Hrun.
    destruct (processQuery W DeleteResponse Unimplemented GetWholeNumberParam
                AliasFromType QueryDocuments FilterDocument tjsonMarshal jsonMarshalable driverDelete
                document deletes i (world st0) (deleted st0))
      as [[w' n'] [[]|err|]] eqn:Hp; [| |discriminate].
    + apply IH in Hrun. cbn [attempts] in Hrun.
      destruct Hrun as [Ha|(pre & k & err & post & Hi & Ha & Hother)].
      * left. rewrite Ha, <- app_assoc. reflexivity.
      * right. exists (i :: pre), k, err, post.
        split; [now rewrite Hi|]. split; [now rewrite Ha, <- app_assoc|].
        intros deletes' post' Hsame. cbn [app processAll].
        pose proof (processQuery_stmt document deletes deletes' i
                      (world st0) (deleted st0)
                      (Hsame i (or_introl eq_refl))) as Hq.
        unfold process in Hq. rewrite Hq, Hp.
        apply Hother. intros j Hj. apply Hsame. now right.
    + inversion Hrun; subst. right. exists [], i, err, rest.
      split; [reflexivity|]. split; [reflexivity|].
      intros deletes' post' Hsame. cbn [app processAll].
      pose proof (processQuery_stmt document deletes deletes' i
                    (world st0) (deleted st0)
                    (Hsame i (or_introl eq_refl))) as Hq.
      unfold process in Hq. now rewrite Hq, Hp.
Qed.

Lemma nth_error_firstn_lt {A : Type} (l : list A) :
  forall n i, (i < n)%nat -> nth_error (firstn n l) i = nth_error l i.
Proof.
  induction l as [|a l IH]; intros n i Hlt.
  - now rewrite firstn_nil.
  - destruct n as [|n]; [lia|]. destruct i as [|i]; [reflexivity|].
    cbn. apply IH. lia.
Qed.

(** X17. An ordered loop that stopped at statement [k] has not read the
    array beyond [k]: on any other array with the same first [k+1]
    statements, whatever follows them, it ends in the same state (same
    backend, count, errors and calls). *)
Theorem ordered_loop_ignores_tail
        (document : Document) (ds ds' : Array) (st0 st : Loop W)
        (k : nat) (err : Error) :
  all document (Some ds) true (seq 0 (List.length ds)) st0 = Ok st ->
  attempts st = attempts st0 ++ map succeeded (seq 0 k) ++ [(k, Some err)] ->
  firstn (S k) ds' = firstn (S k) ds ->
  all document (Some ds') true (seq 0 (List.length ds')) st0 = Ok st.
Proof.
  intros Hrun Hatt Hfirst.
  destruct (ordered_run_shape document (Some ds) _ _ _ Hrun)
    as [Ha|(pre & k' & err' & post & Hsplit & Ha & Hother)].
  - exfalso. rewrite Ha in Hatt. apply app_inv_head in Hatt.
    assert (Hin : In (k, Some err) (map succeeded (seq 0 (List.length ds)))).
    { rewrite Hatt. apply in_or_app. right. now left. }
    apply in_map_iff in Hin. destruct Hin as (x & Hx & _). discriminate.
  - rewrite Ha in Hatt. apply app_inv_head in Hatt.
    apply app_inj_tail in Hatt. destruct Hatt as [Hpre Hk].
    inversion Hk; subst k' err'.
    apply (f_equal (map fst)) in Hpre. rewrite !map_fst_succeeded in Hpre.
    subst pre.
    apply seq_split_inv in Hsplit. destruct Hsplit as (_ & _ & Hlt).
    rewrite length_seq in Hlt.
    assert (Hlt' : (S k <= List.length ds')%nat).
    { apply (f_equal (@List.length Value)) in Hfirst.
      rewrite !length_firstn in Hfirst. lia. }
    replace (List.length ds')
      with (k + S (List.length ds' - S k))%nat by lia.
    rewrite seq_app. cbn [seq Nat.add].
    apply Hother. intros i Hi. unfold stmt.
    assert (Hik : (i < S k)%nat).
    { apply in_app_or in Hi. destruct Hi as [Hi|[<-|[]]]; [|lia].
      apply in_seq in Hi. lia. }
    rewrite <- (nth_error_firstn_lt ds' (S k) i Hik).
    rewrite <- (nth_error_firstn_lt ds (S k) i Hik).
    now rewrite Hfirst.
Qed.

End LoopFacts.

(** ** The statements at concrete commands *)

Import MemTigris.

(** A driver that refuses the match-all filter. *)
Definition carefulDriver (db collection : string) (f : Filter) (w : World)
  : World * (string + DeleteResponse) :=
  match f with
  | FilterAll => (w, inl "refused"%string)
  | _ => driverDelete db collection f w
  end.

(** A document whose [_id] cannot be marshalled (a NaN here, on a
    backend that marshals strings only): [delete] panics and the driver
    is not called. *)
Example delete_unmarshallable_id :
  delete World DeleteResponse tjsonMarshal jsonMarshalable driverDelete
         {| DB := "acme"; Collection := "people" |}
         [[("_id", VDouble PrimFloat.nan)]%string] three
  = (three, Panic).
Proof. reflexivity. Qed.

Lemma MsgDelete_never_deletes_all_witness :
  Tigris.MsgDelete World DeleteResponse Unimplemented GetWholeNumberParam
    AliasFromType QueryDocuments FilterDocument tjsonMarshal jsonMarshalable driverDelete codeNumber
    (deleteCmd [("ordered", VBool false)]%string) three =
  Tigris.MsgDelete World DeleteResponse Unimplemented GetWholeNumberParam
    AliasFromType QueryDocuments FilterDocument tjsonMarshal jsonMarshalable carefulDriver codeNumber
    (deleteCmd [("ordered", VBool false)]%string) three.
Proof.
  apply (MsgDelete_never_deletes_all
           World DeleteResponse Unimplemented GetWholeNumberParam
           AliasFromType QueryDocuments FilterDocument tjsonMarshal jsonMarshalable codeNumber
           driverDelete carefulDriver).
  intros db collection f w Hf. destruct f; [congruence|reflexivity..].
Defined.

Lemma MsgDelete_no_statements_witness :
  MemTigris.MsgDelete
    [("delete", VString "people"); ("deletes", VArray []);
     ("$db", VString "acme")]%string three =
  Ok (three, [("ok", VDouble 1%float); ("n", VInt32 0)]%string).
Proof.
  apply (MsgDelete_no_statements
           World DeleteResponse Unimplemented GetWholeNumberParam
           AliasFromType QueryDocuments FilterDocument tjsonMarshal jsonMarshalable driverDelete
           codeNumber).
  - reflexivity.
  - right. reflexivity.
  - left. reflexivity.
Defined.

(** Two statements that match nothing around one that is malformed. *)
Definition missCmd : Document :=
  [("delete", VString "people");
   ("deletes", VArray [byId "nope"; VString "oops"; byId "zzz"]);
   ("ordered", VBool false); ("$db", VString "acme")]%string.

Lemma MsgDelete_nothing_selected_witness :
  exists st,
    MemTigris.runDeletes missCmd three = Ok st /\
    world st = three /\ deleted st = 0 /\
    Get (replyDoc World codeNumber st) "n" = Some (VInt32 0).
Proof.
  eexists. split; [reflexivity|].
  apply (MsgDelete_nothing_selected
           World DeleteResponse Unimplemented GetWholeNumberParam
           AliasFromType QueryDocuments FilterDocument tjsonMarshal jsonMarshalable driverDelete
           codeNumber missCmd three).
  - reflexivity.
  - intros deletes i fp docs Hd Hsel. cbn in Hd. inversion Hd; subst.
    destruct i as [|[|[|i]]]; cbn in Hsel;
      try discriminate; try (inversion Hsel; reflexivity).
    destruct i; discriminate.
Defined.

Lemma MsgDelete_error_indices_witness :
  exists st,
    MemTigris.runDeletes (deleteCmd [("ordered", VBool false)]%string) three
    = Ok st /\
    StronglySorted Z.lt (map weIndex (delErrors st)) /\
    Forall (fun i => 0 <= i < Z.of_nat 3) (map weIndex (delErrors st)) /\
    (List.length (delErrors st) <= 3)%nat.
Proof.
  eexists. split; [reflexivity|].
  apply (MsgDelete_error_indices
           World DeleteResponse Unimplemented GetWholeNumberParam
           AliasFromType QueryDocuments FilterDocument tjsonMarshal jsonMarshalable driverDelete
           (deleteCmd [("ordered", VBool false)]%string) three _
           (Some [byId "1"; VString "oops"; byId "3"])).
  - reflexivity.
  - reflexivity.
  - cbn. lia.
Defined.

(** The ordered loop stops at the malformed second statement: what
    comes third does not matter. *)
Lemma ordered_loop_ignores_tail_witness :
  let start := {| world := three; deleted := 0; delErrors := [];
                  attempts := [] |} in
  let stop := {| world := [row "2" "b"; row "3" "c"];
                 deleted := 1;
                 delErrors := [{| weIndex := 1; weCode := ErrTypeMismatch;
                                  weErr := "" |}];
                 attempts := [(0%nat, None);
                              (1%nat, Some (CommandError ErrTypeMismatch ""))]
              |} in
  processAll World DeleteResponse Unimplemented GetWholeNumberParam
    AliasFromType QueryDocuments FilterDocument tjsonMarshal jsonMarshalable driverDelete
    (deleteCmd []) (Some [byId "1"; VString "oops"; byId "2"; byId "3"])
    true (seq 0 4) start = Ok stop.
Proof.
  cbv zeta.
  apply (ordered_loop_ignores_tail
           World DeleteResponse Unimplemented GetWholeNumberParam
           AliasFromType QueryDocuments FilterDocument tjsonMarshal jsonMarshalable driverDelete
           (deleteCmd []) [byId "1"; VString "oops"; byId "3"]
           [byId "1"; VString "oops"; byId "2"; byId "3"]
           _ _ 1%nat (CommandError ErrTypeMismatch "")).
  - reflexivity.
  - reflexivity.
  - reflexivity.
Defined.

End TigrisMoreFacts.
